(** * A shallow embedding of the test-harness simulator (src/main.cpp)

    The program keeps three kinds of mutable data: polymorphic test-case
    objects allocated with [new] and reached through raw pointers, [TestSuite]
    objects whose [tests] vector holds such pointers, and two process-wide
    resources (the static suite counter and the standard output stream).
    All of them live in one explicit [state]; every member function is a
    computation in a small state-and-failure monad over it. *)

From stdpp Require Import gmap strings list pretty.

Local Open Scope Z_scope.

(** ** Machine integers *)

Module Int.
(** [int] is 32 bits wide, [size_t] is 64 bits wide. *)
Definition INT_MAX : Z := 2147483647.

(** Conversion of a mathematical value to [int] (two's complement). *)
Definition wrap (z : Z) : Z := (z + 2 ^ 31) mod 2 ^ 32 - 2 ^ 31.

(** Conversion of an [int] to [size_t], as the usual arithmetic
    conversions do when an [int] meets a [size_t]. *)
Definition to_size_t (z : Z) : Z := z mod 2 ^ 64.

(** [x++] on an [int]; past [INT_MAX] the value wraps around, as the
    two's-complement machine does. *)
Definition incr (z : Z) : Z := wrap (z + 1).
End Int.

(** ** Test-case objects *)

(** An address is a non-null pointer value.  The null pointer is not
    modelled: a vector of test pointers is a list of addresses, so a suite
    that was handed [nullptr] is outside the model, and what is stated about
    the pointers of a suite is stated about suites of non-null pointers. *)
Abbreviation addr := positive (only parsing).

(** The dynamic objects behind a [TestCaseBase*]: the abstract base has two
    concrete classes; the constructor records the dynamic type.  An address
    is never the null pointer. *)
Inductive TestCaseBase : Type :=
| TestCase (input expected : string)
| AdvancedTestCase (input expected : string) (complexityLevel : Z).

(** ** Program state *)

Record state : Type := State {
  heap : gmap addr TestCaseBase;          (* objects created by [new] *)
  suites : gmap addr (list addr);         (* [tests] of every live TestSuite *)
  totalTestSuitesCreated : Z;             (* static int of TestSuite *)
  cout : list string                      (* lines written, each ended by endl *)
}.

Definition initial_state : state :=
  {| heap := ∅; suites := ∅; totalTestSuitesCreated := 0; cout := [] |}.

Definition set_heap (f : gmap addr TestCaseBase → gmap addr TestCaseBase)
    (σ : state) : state :=
  {| heap := f (heap σ); suites := suites σ;
     totalTestSuitesCreated := totalTestSuitesCreated σ; cout := cout σ |}.

Definition set_suites (f : gmap addr (list addr) → gmap addr (list addr))
    (σ : state) : state :=
  {| heap := heap σ; suites := f (suites σ);
     totalTestSuitesCreated := totalTestSuitesCreated σ; cout := cout σ |}.

Definition set_counter (f : Z → Z) (σ : state) : state :=
  {| heap := heap σ; suites := suites σ;
     totalTestSuitesCreated := f (totalTestSuitesCreated σ); cout := cout σ |}.

Definition set_cout (f : list string → list string) (σ : state) : state :=
  {| heap := heap σ; suites := suites σ;
     totalTestSuitesCreated := totalTestSuitesCreated σ; cout := f (cout σ) |}.

(** ** The monad: state passing, [None] when the C++ run has no defined
    result (a dangling pointer is dereferenced or deleted, a vector is
    indexed out of range, or an exception leaves the function). *)

Definition M (A : Type) : Type := state → option (A * state).

Definition ret {A} (a : A) : M A := λ σ, Some (a, σ).

Definition bind {A B} (m : M A) (k : A → M B) : M B :=
  λ σ, match m σ with
       | Some (a, σ') => k a σ'
       | None => None
       end.

Definition fail {A} : M A := λ _, None.

Definition modify (f : state → state) : M unit := λ σ, Some ((), f σ).

Declare Scope cpp_scope.
Delimit Scope cpp_scope with cpp.
Notation "x <- m ;; k" := (bind m (λ x, k))
  (at level 100, m at next level, right associativity) : cpp_scope.
Notation "m ;; k" := (bind m (λ _, k))
  (at level 100, right associativity) : cpp_scope.
Local Open Scope cpp_scope.

Fixpoint for_each {A} (l : list A) (body : A → M unit) : M unit :=
  match l with
  | [] => ret ()
  | x :: l' => body x ;; for_each l' body
  end.

(** ** Heap primitives *)

(** [new T(...)]: the allocator hands out an address no live object has. *)
Definition new (o : TestCaseBase) : M addr :=
  λ σ, let p := fresh (dom (heap σ)) in Some (p, set_heap <[p:=o]> σ).

(** [delete p] for a non-null [p]: defined only when [p] points to a live
    object. *)
Definition delete_object (p : addr) : M unit :=
  λ σ, match heap σ !! p with
       | Some _ => Some ((), set_heap (delete p) σ)
       | None => None
       end.

(** [*p]: defined only when [p] points to a live object. *)
Definition deref (p : addr) : M TestCaseBase :=
  λ σ, match heap σ !! p with
       | Some o => Some (o, σ)
       | None => None
       end.

(** [cout << ... << endl]. *)
Definition put_line (s : string) : M unit := modify (set_cout (λ out, out ++ [s])).

(** ** TestCase and AdvancedTestCase *)

(** [TestCase::runTest]: [input == expected]. *)
Definition TestCase_runTest (input expected : string) : M bool :=
  ret (String.eqb input expected).

Definition trace_line (level : Z) : string :=
  "Running advanced test with complexity level: " +:+ pretty level.

(** [AdvancedTestCase::runTest]: writes its line, then evaluates
    [TestCase::runTest() && complexityLevel > 2]. *)
Definition AdvancedTestCase_runTest (input expected : string) (level : Z) : M bool :=
  put_line (trace_line level) ;;
  b <- TestCase_runTest input expected ;;
  ret (b && (level >? 2)).

(** Virtual call [test.runTest()]. *)
Definition runTest (this : addr) : M bool :=
  o <- deref this ;;
  match o with
  | TestCase i e => TestCase_runTest i e
  | AdvancedTestCase i e l => AdvancedTestCase_runTest i e l
  end.

(** Virtual call [test->clone()]. *)
Definition clone (this : addr) : M addr :=
  o <- deref this ;;
  match o with
  | TestCase i e => new (TestCase i e)
  | AdvancedTestCase i e l => new (AdvancedTestCase i e l)
  end.

(** ** TestSuite *)

(** Storage for a new TestSuite object whose [tests] vector is
    default-initialised (empty). *)
Definition alloc_suite : M addr :=
  λ σ, let a := fresh (dom (suites σ)) in Some (a, set_suites <[a:=[]]> σ).

(** Read of the member [tests] of the suite at [this]. *)
Definition get_tests (this : addr) : M (list addr) :=
  λ σ, match suites σ !! this with
       | Some ts => Some (ts, σ)
       | None => None
       end.

(** Write of the member [tests] of the suite at [this]. *)
Definition set_tests (this : addr) (ts : list addr) : M unit :=
  λ σ, match suites σ !! this with
       | Some _ => Some ((), set_suites <[this:=ts]> σ)
       | None => None
       end.

(** [tests.push_back(p)]. *)
Definition push_back (this : addr) (p : addr) : M unit :=
  ts <- get_tests this ;; set_tests this (ts ++ [p]).

(** [TestSuite::TestSuite()]. *)
Definition TestSuite_ctor : M addr :=
  this <- alloc_suite ;;
  modify (set_counter Int.incr) ;;
  ret this.

Definition addTest (this : addr) (test : addr) : M unit :=
  push_back this test.

Definition getTests (this : addr) : M (list addr) :=
  get_tests this.

(** [int getTestCount() const { return tests.size(); }]: the [size_t] is
    converted to [int]. *)
Definition getTestCount (this : addr) : M Z :=
  ts <- get_tests this ;; ret (Int.wrap (Z.of_nat (length ts))).

Definition getTotalTestSuitesCreated : M Z :=
  λ σ, Some (totalTestSuitesCreated σ, σ).

(** The loop [for (test : other.tests) tests.push_back(test->clone())]. *)
Definition clone_into (this : addr) (others : list addr) : M unit :=
  for_each others (λ test, p <- clone test ;; push_back this p).

(** The loop [for (test : tests) delete test]. *)
Definition delete_all (ts : list addr) : M unit :=
  for_each ts delete_object.

(** [TestSuite::operator=(const TestSuite& other)]. *)
Definition operator_assign (this other : addr) : M unit :=
  if decide (this ≠ other) then
    ts <- get_tests this ;;
    delete_all ts ;;
    set_tests this [] ;;
    others <- get_tests other ;;
    clone_into this others
  else ret ().

(** [TestSuite::TestSuite(const TestSuite& other)]. *)
Definition TestSuite_copy_ctor (other : addr) : M addr :=
  this <- alloc_suite ;;
  others <- get_tests other ;;
  clone_into this others ;;
  ret this.

(** [TestSuite::~TestSuite()], followed by the release of the storage. *)
Definition TestSuite_dtor (this : addr) : M unit :=
  ts <- get_tests this ;;
  delete_all ts ;;
  modify (set_suites (delete this)).

(** [TestSuite::shallowCopy]: vector assignment [tests = other.tests]. *)
Definition shallowCopy (this other : addr) : M unit :=
  others <- get_tests other ;; set_tests this others.

(** ** Task *)

(** The member [testSuite] is a TestSuite object of its own; the record
    holds the address of that member. *)
Record Task : Type := mkTask {
  description : string;
  testSuite : addr
}.

(** [Task::Task(desc, suite)]: [description(desc), testSuite(suite)]. *)
Definition Task_ctor (desc : string) (suite : addr) : M Task :=
  member <- TestSuite_copy_ctor suite ;;
  ret {| description := desc; testSuite := member |}.

Definition getDescription (task : Task) : string := description task.

Definition getTestSuite (task : Task) : addr := testSuite task.

(** ** UserSolution, ExecutionResult, Submission *)

Record UserSolution : Type := mkUserSolution { solutionCode : string }.

Definition getSolutionCode (s : UserSolution) : string := solutionCode s.

Record ExecutionResult : Type := mkExecutionResult {
  actualOutput : string;
  isPassed : bool
}.

(** [ExecutionResult() : isPassed(false) {}]. *)
Definition ExecutionResult_ctor : ExecutionResult :=
  {| actualOutput := ""; isPassed := false |}.

Definition setActualOutput (r : ExecutionResult) (output : string) : ExecutionResult :=
  {| actualOutput := output; isPassed := isPassed r |}.

Definition setIsPassed (r : ExecutionResult) (passed : bool) : ExecutionResult :=
  {| actualOutput := actualOutput r; isPassed := passed |}.

Definition getActualOutput (r : ExecutionResult) : string := actualOutput r.

Definition getIsPassed (r : ExecutionResult) : bool := isPassed r.

Record Submission : Type := mkSubmission {
  solution : UserSolution;
  results : list ExecutionResult;
  totalPassed : Z
}.

(** [Submission(userSolution, testCount)]: [results.resize(testCount)]
    converts the [int] to [size_t].  A count from 0 to [INT_MAX] keeps its
    value; a negative one becomes at least [2^64 - 2^31], which is above
    [max_size()], and [resize] throws [std::length_error]. *)
Definition Submission_ctor (userSolution : UserSolution) (testCount : Z) : M Submission :=
  if Int.INT_MAX <? Int.to_size_t testCount then fail
  else ret {| solution := userSolution;
              results := replicate (Z.to_nat (Int.to_size_t testCount)) ExecutionResult_ctor;
              totalPassed := 0 |}.

Definition setTotalPassed (s : Submission) (passed : Z) : Submission :=
  {| solution := solution s; results := results s; totalPassed := passed |}.

Definition getTotalPassed (s : Submission) : Z := totalPassed s.

Definition getResults (s : Submission) : list ExecutionResult := results s.

Definition getSolution (s : Submission) : UserSolution := solution s.

(** [v[i]] on a vector: undefined out of range. *)
Definition vector_at {A} (v : list A) (i : Z) : M A :=
  match v !! Z.to_nat i with
  | Some x => ret x
  | None => fail
  end.

(** [submission.getResults()[i] = result]. *)
Definition set_result (s : Submission) (i : Z) (r : ExecutionResult) : M Submission :=
  if decide (Z.to_nat i < length (results s))%nat then
    ret {| solution := solution s; results := <[Z.to_nat i:=r]> (results s);
           totalPassed := totalPassed s |}
  else fail.

(** ** The runner *)

(** [runTestCase]: [test.runTest()] is evaluated once for the label and
    once more for the flag. *)
Definition runTestCase (solution : UserSolution) (test : addr) : M ExecutionResult :=
  let result := ExecutionResult_ctor in
  b1 <- runTest test ;;
  let result := setActualOutput result (if b1 then "Passed" else "Failed") in
  b2 <- runTest test ;;
  let result := setIsPassed result b2 in
  ret result.

(** The [for] loop of [checkSolution], from index [i] on; the condition
    [i < task.getTestSuite().getTestCount()] is evaluated before every
    iteration.  [fuel] bounds the number of condition evaluations. *)
Fixpoint checkSolution_loop (fuel : nat) (solution : UserSolution) (task : Task)
    (i : Z) (submission : Submission) (totalPassed : Z) : M (Submission * Z) :=
  match fuel with
  | O => fail
  | S fuel' =>
      n <- getTestCount (getTestSuite task) ;;
      if i <? Int.to_size_t n then
        tests <- getTests (getTestSuite task) ;;
        test <- vector_at tests i ;;
        result <- runTestCase solution test ;;
        submission <- set_result submission i result ;;
        let totalPassed :=
          if getIsPassed result then Int.incr totalPassed else totalPassed in
        checkSolution_loop fuel' solution task ((i + 1) mod 2 ^ 64) submission totalPassed
      else ret (submission, totalPassed)
  end.

(** [checkSolution(solution, task)].  The loop evaluates its condition once
    per test and once more to leave, which is the fuel it is given. *)
Definition checkSolution (solution : UserSolution) (task : Task) : M Submission :=
  n <- getTestCount (getTestSuite task) ;;
  submission <- Submission_ctor solution n ;;
  r <- checkSolution_loop (S (length (getResults submission))) solution task 0 submission 0 ;;
  ret (setTotalPassed r.1 r.2).

(** ** The scenario of [main] *)

Definition main : M (Submission * Z) :=
  test1 <- new (TestCase "input1" "input1") ;;
  test2 <- new (TestCase "input2" "expected2") ;;
  suite <- TestSuite_ctor ;;
  addTest suite test1 ;;
  addTest suite test2 ;;
  task <- Task_ctor "Example Task" suite ;;
  let solution := {| solutionCode := "user_solution_code" |} in
  submission <- checkSolution solution task ;;
  created <- getTotalTestSuitesCreated ;;
  ret (submission, created).

(** ** Observations used in the statements *)

(** What one evaluation of [runTest] on an object returns and writes. *)
Definition passes (o : TestCaseBase) : bool :=
  match o with
  | TestCase i e => String.eqb i e
  | AdvancedTestCase i e l => String.eqb i e && (l >? 2)
  end.

Definition trace_of (o : TestCaseBase) : list string :=
  match o with
  | TestCase _ _ => []
  | AdvancedTestCase _ _ l => [trace_line l]
  end.

Definition result_of (o : TestCaseBase) : ExecutionResult :=
  {| actualOutput := if passes o then "Passed" else "Failed"; isPassed := passes o |}.

Definition emit (lines : list string) (σ : state) : state :=
  set_cout (λ out, out ++ lines) σ.

(** [contents σ ts os]: the pointers [ts] are live in [σ] and point, in
    order, to objects equal to [os] (same dynamic type, same fields). *)
Definition contents (σ : state) (ts : list addr) (os : list TestCaseBase) : Prop :=
  Forall2 (λ p o, heap σ !! p = Some o) ts os.

(** Number of results whose flag is set. *)
Definition count_passed (rs : list ExecutionResult) : Z :=
  Z.of_nat (length (List.filter isPassed rs)).

(** The lines one [runTestCase] writes for an object: [runTest] runs twice. *)
Definition runTestCase_trace (o : TestCaseBase) : list string :=
  trace_of o ++ trace_of o.

(** What an observer of a Submission other than its stored solution sees. *)
Definition outcome (r : option (Submission * state)) : option (list ExecutionResult * Z * state) :=
  (λ x, (results x.1, totalPassed x.1, x.2)) <$> r.

(** [deep_copy σ c b ts os]: in [σ] the suite at [c] is a deep copy of the
    suite at [b], whose elements are [ts] with values [os]: it has as many
    elements, the elements at each position are equal objects (same dynamic
    type, same fields), the copy's elements are pairwise distinct and none
    is an element of the source, and destroying either suite leaves the
    other suite and its elements as they are.  The copy can always be
    destroyed; the source can when its own pointers are pairwise distinct. *)
Definition deep_copy (σ : state) (c b : addr) (ts : list addr)
    (os : list TestCaseBase) : Prop :=
  ∃ ts',
    suites σ !! c = Some ts' ∧ suites σ !! b = Some ts
    ∧ length ts' = length ts
    ∧ contents σ ts' os ∧ contents σ ts os
    ∧ NoDup ts'
    ∧ (∀ p, p ∈ ts' → p ∉ ts)
    ∧ (∃ σ', TestSuite_dtor c σ = Some ((), σ')
             ∧ suites σ' !! b = Some ts ∧ contents σ' ts os)
    ∧ (∀ σ', TestSuite_dtor b σ = Some ((), σ') →
             suites σ' !! c = Some ts' ∧ contents σ' ts' os)
    ∧ (NoDup ts → is_Some (TestSuite_dtor b σ)).

(** Two suites and a copy: what the counter reads afterwards. *)
Definition counter_scenario : M Z :=
  first <- TestSuite_ctor ;;
  second <- TestSuite_ctor ;;
  third <- TestSuite_copy_ctor first ;;
  getTotalTestSuitesCreated.

(** ** Concrete states used to exercise the statements *)

Definition base_state : state :=
  set_heap <[5%positive := TestCase "input1" "input1"]> initial_state.

Definition advanced_state : state :=
  set_heap <[7%positive := AdvancedTestCase "x" "x" 1]> initial_state.

Definition advanced_scenario_solution : UserSolution :=
  {| solutionCode := "user_solution_code" |}.

(** One advanced test case [("x","x",3)] in a suite, wrapped in a Task and
    checked once; the result is what [cout] holds afterwards. *)
Definition advanced_scenario : M (list string) :=
  test <- new (AdvancedTestCase "x" "x" 3) ;;
  suite <- TestSuite_ctor ;;
  addTest suite test ;;
  task <- Task_ctor "Advanced Task" suite ;;
  checkSolution advanced_scenario_solution task ;;
  (λ σ, Some (cout σ, σ)).

(** A state with one suite at address 1 holding a passing base test and a
    failing advanced test, and a Task whose member suite it is. *)
Definition two_tests_state : state :=
  {| heap := <[2%positive := AdvancedTestCase "x" "x" 1]>
               (<[1%positive := TestCase "input1" "input1"]> ∅);
     suites := <[1%positive := [1%positive; 2%positive]]> ∅;
     totalTestSuitesCreated := 1;
     cout := [] |}.

Definition two_tests_task : Task :=
  {| description := "Example Task"; testSuite := 1%positive |}.

(** A state with a suite at address 1 owning one base test and a suite at
    address 2 owning a base test and an advanced test. *)
Definition two_suites_state : state :=
  {| heap := <[3%positive := AdvancedTestCase "x" "x" 3]>
               (<[2%positive := TestCase "input2" "expected2"]>
                  (<[1%positive := TestCase "input1" "input1"]> ∅));
     suites := <[2%positive := [2%positive; 3%positive]]>
                 (<[1%positive := [1%positive]]> ∅);
     totalTestSuitesCreated := 2;
     cout := [] |}.

Definition two_suites_objects : list TestCaseBase :=
  [TestCase "input2" "expected2"; AdvancedTestCase "x" "x" 3].

(** The state in which [main] builds its Task: one suite, at address 1,
    owning the two base tests. *)
Definition one_suite_state : state :=
  {| heap := <[2%positive := TestCase "input2" "expected2"]>
               (<[1%positive := TestCase "input1" "input1"]> ∅);
     suites := <[1%positive := [1%positive; 2%positive]]> ∅;
     totalTestSuitesCreated := 1;
     cout := [] |}.

Definition one_suite_objects : list TestCaseBase :=
  [TestCase "input1" "input1"; TestCase "input2" "expected2"].

(** [preserves R m]: whenever [m] returns, the state it leaves is related
    by [R] to the state it started from. *)
Definition preserves {A} (R : relation state) (m : M A) : Prop :=
  ∀ σ a σ', m σ = Some (a, σ') → R σ σ'.

(** The counter and [cout] are as before. *)
Definition quiet : relation state :=
  λ σ σ', totalTestSuitesCreated σ' = totalTestSuitesCreated σ
          ∧ cout σ' = cout σ.

(** Objects, suites and the counter are as before; [cout] has at most
    grown. *)
Definition only_writes : relation state :=
  λ σ σ', heap σ' = heap σ
          ∧ suites σ' = suites σ
          ∧ totalTestSuitesCreated σ' = totalTestSuitesCreated σ
          ∧ ∃ lines, cout σ' = cout σ ++ lines.

(** Number of advanced test cases among the objects of a suite. *)
Definition advanced_count (os : list TestCaseBase) : nat :=
  length (List.filter (λ o, match o with
                            | TestCase _ _ => false
                            | AdvancedTestCase _ _ _ => true
                            end) os).

(** Two calls of [checkSolution] in a row. *)
Definition checkSolution_twice (s : UserSolution) (task : Task)
    : M (Submission * Submission) :=
  first <- checkSolution s task ;;
  second <- checkSolution s task ;;
  ret (first, second).

(** The state of [two_suites_state] after suite 1 took a shallow copy of
    suite 2: both hold the pointers 2 and 3. *)
Definition aliased_state : state :=
  set_suites <[1%positive := [2%positive; 3%positive]]> two_suites_state.

(** A suite at address 1 that was given the same pointer twice. *)
Definition duplicate_state : state :=
  {| heap := <[1%positive := TestCase "input1" "input1"]> ∅;
     suites := <[1%positive := [1%positive; 1%positive]]> ∅;
     totalTestSuitesCreated := 1;
     cout := [] |}.

(** [two_tests_state] after the advanced test at address 2 was released:
    the suite at address 1 still holds the pointer. *)
Definition dangling_state : state :=
  set_heap (delete 2%positive) two_tests_state.

(** A test passes on its fields alone. *)
Definition fields_pass (o : TestCaseBase) : Prop :=
  match o with
  | TestCase i e => i = e
  | AdvancedTestCase i e l => i = e ∧ l > 2
  end.

(** ** Client code working on suites *)

(** One step of a client of the classes: an allocation or one of the
    public operations of TestSuite and of the runner. *)
Inductive client_op : Type :=
| op_new (o : TestCaseBase)                     (* new TestCase(..) / new AdvancedTestCase(..) *)
| op_TestSuite                                  (* TestSuite s; *)
| op_addTest (a p : addr)                       (* a.addTest(p) *)
| op_copy (b : addr)                            (* TestSuite s(b); *)
| op_assign (a b : addr)                        (* a = b *)
| op_shallowCopy (a b : addr)                   (* a.shallowCopy(b) *)
| op_destroy (a : addr)                         (* a goes out of scope *)
| op_checkSolution (s : UserSolution) (task : Task).

Definition run_op (op : client_op) : M unit :=
  match op with
  | op_new o => (new o ;; ret ())
  | op_TestSuite => (TestSuite_ctor ;; ret ())
  | op_addTest a p => addTest a p
  | op_copy b => (TestSuite_copy_ctor b ;; ret ())
  | op_assign a b => operator_assign a b
  | op_shallowCopy a b => shallowCopy a b
  | op_destroy a => TestSuite_dtor a
  | op_checkSolution s task => (checkSolution s task ;; ret ())
  end.

Definition run_ops (ops : list client_op) : M unit := for_each ops run_op.

(** [keeps_away c mine op]: the step [op] respects a Task whose member
    suite is [c] with elements [mine].  The member is private and reachable
    only through a const reference, so no mutating operation has it as
    receiver; beyond that, no other suite is handed the Task's elements:
    no [addTest] of one of them, no [shallowCopy] from the Task's suite. *)
Definition keeps_away (c : addr) (mine : list addr) (op : client_op) : Prop :=
  match op with
  | op_addTest a p => a ≠ c ∧ p ∉ mine
  | op_assign a b => a ≠ c
  | op_shallowCopy a b => a ≠ c ∧ b ≠ c
  | op_destroy a => a ≠ c
  | op_new _ | op_TestSuite | op_copy _ | op_checkSolution _ _ => True
  end.

(** [mutates suite op]: the step [op] is a mutating operation of TestSuite
    with [suite] as its receiver. *)
Definition mutates (suite : addr) (op : client_op) : Prop :=
  match op with
  | op_addTest a _ | op_assign a _ | op_shallowCopy a _ | op_destroy a =>
      a = suite
  | op_new _ | op_TestSuite | op_copy _ | op_checkSolution _ _ => False
  end.

(** Every pointer held by a suite of [σ] points to a live object. *)
Definition suites_live (σ : state) : Prop :=
  map_Forall (λ _ l, Forall (λ p, is_Some (heap σ !! p)) l) (suites σ).

(** [task_suite_kept c mine os σ]: the suite at [c] holds [mine], whose
    objects are [os], and no other suite holds an element of [mine]. *)
Definition task_suite_kept (c : addr) (mine : list addr)
    (os : list TestCaseBase) (σ : state) : Prop :=
  suites σ !! c = Some mine
  ∧ contents σ mine os
  ∧ ∀ a l, a ≠ c → suites σ !! a = Some l → ∀ p, p ∈ l → p ∉ mine.

(** The objects a suite's pointers lead to, [None] for a pointer without a
    live object. *)
Definition suite_objects (σ : state) (a : addr)
    : option (list (option TestCaseBase)) :=
  match suites σ !! a with
  | Some ts => Some ((λ p : addr, heap σ !! p) <$> ts)
  | None => None
  end.

(** A Task built over the suite at address 2; then that suite takes a
    shallow copy of the Task's suite and is destroyed.  The result is what
    the Task's suite leads to before and after these two steps. *)
Definition alias_scenario
    : M (option (list (option TestCaseBase)) * option (list (option TestCaseBase))) :=
  task <- Task_ctor "Example Task" 2%positive ;;
  before <- (λ σ, Some (suite_objects σ (getTestSuite task), σ)) ;;
  shallowCopy 2%positive (getTestSuite task) ;;
  TestSuite_dtor 2%positive ;;
  after <- (λ σ, Some (suite_objects σ (getTestSuite task), σ)) ;;
  ret (before, after).

(** Steps on the original suite (address 2) that keep away from the Task:
    a new test is added, the suite is assigned from suite 1, copied, and
    destroyed. *)
Definition harmless_steps : list client_op :=
  [ op_new (TestCase "a" "b"); op_addTest 2%positive 1%positive;
    op_copy 2%positive; op_TestSuite; op_shallowCopy 2%positive 1%positive;
    op_checkSolution advanced_scenario_solution two_tests_task ].

(** * Properties *)

(** ** Reasoning about monadic code *)

Lemma bind_Some {A B} (m : M A) (k : A → M B) σ b σ' :
  bind m k σ = Some (b, σ') ↔ ∃ a σ1, m σ = Some (a, σ1) ∧ k a σ1 = Some (b, σ').
Proof.
  unfold bind. split.
  - destruct (m σ) as [[a σ1]|] eqn:E; [|done]. intros Hk. by exists a, σ1.
  - intros (a & σ1 & -> & Hk). done.
Qed.

Lemma bind_run {A B} (m : M A) (k : A → M B) σ a σ1 :
  m σ = Some (a, σ1) → bind m k σ = k a σ1.
Proof. unfold bind. by intros ->. Qed.

Ltac run_with H := erewrite bind_run by exact H.

(** The scenario of [main]: one test passes, one fails, and the counter
    reads 1 although two suites exist (the variable and the Task's copy). *)
Example main_run :
  fst <$> main initial_state
  = Some ({| solution := {| solutionCode := "user_solution_code" |};
             results := [ {| actualOutput := "Passed"; isPassed := true |};
                          {| actualOutput := "Failed"; isPassed := false |} ];
             totalPassed := 1 |}, 1).
Proof. vm_compute. reflexivity. Qed.

Lemma emit_nil σ : emit [] σ = σ.
Proof. destruct σ. unfold emit, set_cout. simpl. by rewrite app_nil_r. Qed.

Lemma emit_emit l1 l2 σ : emit l2 (emit l1 σ) = emit (l1 ++ l2) σ.
Proof. destruct σ. unfold emit, set_cout. simpl. by rewrite app_assoc. Qed.

Lemma heap_emit l σ : heap (emit l σ) = heap σ.
Proof. done. Qed.

Lemma suites_emit l σ : suites (emit l σ) = suites σ.
Proof. done. Qed.

Lemma runTest_run σ p o :
  heap σ !! p = Some o → runTest p σ = Some (passes o, emit (trace_of o) σ).
Proof.
  intros Hp. unfold runTest, bind, deref. rewrite Hp.
  destruct o as [i e|i e l]; simpl.
  - unfold TestCase_runTest, ret. by rewrite emit_nil.
  - done.
Qed.

Lemma runTest_dangling σ p : heap σ !! p = None → runTest p σ = None.
Proof. intros Hp. unfold runTest, bind, deref. by rewrite Hp. Qed.

Lemma runTestCase_run s σ p o :
  heap σ !! p = Some o →
  runTestCase s p σ = Some (result_of o, emit (runTestCase_trace o) σ).
Proof.
  intros Hp. unfold runTestCase.
  run_with (runTest_run σ p o Hp).
  assert (heap (emit (trace_of o) σ) !! p = Some o) as Hp' by done.
  run_with (runTest_run _ p o Hp').
  unfold ret. by rewrite emit_emit.
Qed.

Lemma runTestCase_dangling s σ p : heap σ !! p = None → runTestCase s p σ = None.
Proof. intros Hp. unfold runTestCase, bind. by rewrite runTest_dangling. Qed.

Lemma trace_line_inj l1 l2 : trace_line l1 = trace_line l2 → l1 = l2.
Proof.
  unfold trace_line. intros H. apply (inj pretty).
  by apply (inj (String.app _)) in H.
Qed.

(** C5: a base test case passes exactly when [input == expected], and the
    call changes nothing: the state after the call is the state before. *)
Theorem TestCase_runTest_pure (σ : state) (p : addr) (i e : string) :
  heap σ !! p = Some (TestCase i e) →
  ∃ b, runTest p σ = Some (b, σ) ∧ (b = true ↔ i = e).
Proof.
  intros Hp. exists (String.eqb i e). split.
  - rewrite (runTest_run _ _ _ Hp). simpl. by rewrite emit_nil.
  - apply String.eqb_eq.
Qed.

Lemma TestCase_runTest_pure_witness :
  ∃ b, runTest 5%positive base_state = Some (b, base_state)
       ∧ (b = true ↔ "input1" = "input1").
Proof. apply TestCase_runTest_pure. reflexivity. Defined.

(** C4: an advanced test case passes exactly when [input == expected] and
    [complexityLevel > 2]; one call writes exactly one line, the line names
    the complexity level (different levels give different lines), it is
    written before the evaluation, whose own run writes nothing, and it is
    written whatever the outcome. *)
Theorem AdvancedTestCase_runTest_spec (σ : state) (p : addr) (i e : string) (l : Z) :
  heap σ !! p = Some (AdvancedTestCase i e l) →
  ∃ b σ1,
    put_line (trace_line l) σ = Some ((), σ1)
    ∧ (b' <- TestCase_runTest i e ;; ret (b' && (l >? 2))) σ1 = Some (b, σ1)
    ∧ runTest p σ = Some (b, σ1)
    ∧ cout σ1 = cout σ ++ [trace_line l]
    ∧ heap σ1 = heap σ ∧ suites σ1 = suites σ
    ∧ totalTestSuitesCreated σ1 = totalTestSuitesCreated σ
    ∧ (b = true ↔ i = e ∧ l > 2)
    ∧ (∀ l', trace_line l' = trace_line l → l' = l).
Proof.
  intros Hp.
  exists (String.eqb i e && (l >? 2)), (emit [trace_line l] σ).
  split_and!; try done.
  - by rewrite (runTest_run _ _ _ Hp).
  - rewrite andb_true_iff, String.eqb_eq, Z.gtb_lt.
    split; intros [? ?]; (split; [done | lia]).
  - intros l' Hl. exact (trace_line_inj _ _ Hl).
Qed.

Lemma AdvancedTestCase_runTest_spec_witness :
  ∃ b σ1,
    put_line (trace_line 1) advanced_state = Some ((), σ1)
    ∧ (b' <- TestCase_runTest "x" "x" ;; ret (b' && (1 >? 2))) σ1 = Some (b, σ1)
    ∧ runTest 7%positive advanced_state = Some (b, σ1)
    ∧ cout σ1 = cout advanced_state ++ [trace_line 1]
    ∧ heap σ1 = heap advanced_state ∧ suites σ1 = suites advanced_state
    ∧ totalTestSuitesCreated σ1 = totalTestSuitesCreated advanced_state
    ∧ (b = true ↔ "x" = "x" ∧ 1 > 2)
    ∧ (∀ l', trace_line l' = trace_line 1 → l' = 1).
Proof. apply AdvancedTestCase_runTest_spec. reflexivity. Defined.

(** C10: the record [runTestCase] returns is consistent: the label is
    "Passed" exactly when the flag is true and "Failed" exactly when it is
    false; the two evaluations of [runTest] that fill the two fields return
    the same value. *)
Theorem runTestCase_consistent (s : UserSolution) (σ : state) (t : addr) :
  is_Some (heap σ !! t) →
  ∃ r σ' b1 σ1 b2,
    runTestCase s t σ = Some (r, σ')
    ∧ runTest t σ = Some (b1, σ1) ∧ runTest t σ1 = Some (b2, σ') ∧ b1 = b2
    ∧ (actualOutput r = "Passed" ↔ isPassed r = true)
    ∧ (actualOutput r = "Failed" ↔ isPassed r = false).
Proof.
  intros [o Ho].
  exists (result_of o), (emit (runTestCase_trace o) σ),
    (passes o), (emit (trace_of o) σ), (passes o).
  split; [by apply runTestCase_run|].
  split; [by apply runTest_run|].
  split; [unfold runTestCase_trace; rewrite <- emit_emit; by apply runTest_run|].
  split; [done|].
  unfold result_of; simpl. destruct (passes o); split; split; done.
Qed.

Lemma runTestCase_consistent_witness :
  ∃ r σ' b1 σ1 b2,
    runTestCase {| solutionCode := "code" |} 7%positive advanced_state = Some (r, σ')
    ∧ runTest 7%positive advanced_state = Some (b1, σ1)
    ∧ runTest 7%positive σ1 = Some (b2, σ') ∧ b1 = b2
    ∧ (actualOutput r = "Passed" ↔ isPassed r = true)
    ∧ (actualOutput r = "Failed" ↔ isPassed r = false).
Proof. apply runTestCase_consistent. vm_compute. eexists. reflexivity. Defined.

(** ** The loop of [checkSolution] *)

Lemma Int_wrap_small z : - 2 ^ 31 ≤ z ≤ Int.INT_MAX → Int.wrap z = z.
Proof. unfold Int.wrap, Int.INT_MAX. intros H. rewrite Z.mod_small; lia. Qed.

Lemma Int_to_size_t_small z : 0 ≤ z < 2 ^ 64 → Int.to_size_t z = z.
Proof. unfold Int.to_size_t. intros H. by rewrite Z.mod_small. Qed.

Lemma getTestCount_run σ a ts :
  suites σ !! a = Some ts →
  getTestCount a σ = Some (Int.wrap (Z.of_nat (length ts)), σ).
Proof. intros Ha. unfold getTestCount, bind, get_tests. by rewrite Ha. Qed.

Lemma getTests_run σ a ts : suites σ !! a = Some ts → getTests a σ = Some (ts, σ).
Proof. intros Ha. unfold getTests, get_tests. by rewrite Ha. Qed.

Lemma contents_emit l σ ts os : contents σ ts os → contents (emit l σ) ts os.
Proof. done. Qed.

Lemma contents_length σ ts os : contents σ ts os → length ts = length os.
Proof. apply Forall2_length. Qed.

Lemma count_passed_app rs1 rs2 :
  count_passed (rs1 ++ rs2) = count_passed rs1 + count_passed rs2.
Proof. unfold count_passed. rewrite List.filter_app, length_app. lia. Qed.

Lemma count_passed_bound rs : 0 ≤ count_passed rs ≤ Z.of_nat (length rs).
Proof.
  unfold count_passed. pose proof (List.filter_length_le isPassed rs). lia.
Qed.

(** From index [k] on, the loop fills the slots [k..] with the results of the
    tests [k..], in order, adds the number of passed ones, and only writes
    to [cout]. *)
Lemma checkSolution_loop_run s task ts os fuel :
  ∀ (k : nat) sub tp σ,
    suites σ !! testSuite task = Some ts →
    contents σ ts os →
    Z.of_nat (length ts) ≤ Int.INT_MAX →
    (k ≤ length ts)%nat →
    length (results sub) = length ts →
    0 ≤ tp ≤ Z.of_nat k →
    (length ts - k < fuel)%nat →
    checkSolution_loop fuel s task (Z.of_nat k) sub tp σ
    = Some (({| solution := solution sub;
                results := take k (results sub) ++ (result_of <$> drop k os);
                totalPassed := totalPassed sub |},
             tp + count_passed (result_of <$> drop k os)),
            emit (drop k os ≫= runTestCase_trace) σ).
Proof.
  induction fuel as [|fuel IH]; intros k sub tp σ Hs Hc Hmax Hk Hlen Htp Hfuel; [lia|].
  pose proof (contents_length _ _ _ Hc) as Hlos.
  assert (Int.to_size_t (Int.wrap (Z.of_nat (length ts))) = Z.of_nat (length ts)) as Hn.
  { unfold Int.INT_MAX in Hmax.
    rewrite Int_wrap_small by (unfold Int.INT_MAX; lia).
    apply Int_to_size_t_small. lia. }
  simpl. unfold getTestSuite.
  run_with (getTestCount_run _ _ _ Hs). rewrite Hn.
  destruct (Z.ltb_spec (Z.of_nat k) (Z.of_nat (length ts))) as [Hlt|Hge].
  - assert (k < length ts)%nat as Hkl by lia.
    destruct (lookup_lt_is_Some_2 ts k Hkl) as [t Ht].
    destruct (lookup_lt_is_Some_2 os k ltac:(lia)) as [o Ho].
    assert (heap σ !! t = Some o) as Hto.
    { exact (Forall2_lookup_lr _ ts os k t o Hc Ht Ho). }
    run_with (getTests_run _ _ _ Hs).
    unfold vector_at. rewrite Nat2Z.id, Ht.
    erewrite (bind_run (ret t)) by reflexivity.
    run_with (runTestCase_run s _ _ _ Hto).
    unfold set_result. rewrite Nat2Z.id.
    destruct (decide (k < length (results sub))%nat) as [_|Hn']; [|lia].
    erewrite (bind_run (ret _)) by reflexivity.
    assert ((Z.of_nat k + 1) mod 2 ^ 64 = Z.of_nat (S k)) as ->.
    { unfold Int.INT_MAX in Hmax. rewrite Z.mod_small; lia. }
    rewrite (drop_S os o k Ho). simpl.
    rewrite (IH (S k)); simpl; try done; try lia.
    + rewrite emit_emit.
      rewrite (take_S_r (<[k:=result_of o]> (results sub)) k (result_of o))
        by (apply list_lookup_insert_eq; lia).
      rewrite take_insert_ge by lia.
      rewrite <- app_assoc. simpl.
      do 3 f_equal.
      change (result_of o :: ?l) with ([result_of o] ++ l).
      rewrite count_passed_app.
      unfold count_passed at 2. simpl. unfold fmap.
      destruct (passes o); simpl; [|lia].
      unfold Int.incr. unfold Int.INT_MAX in Hmax.
      rewrite Int_wrap_small by (unfold Int.INT_MAX; lia). lia.
    + by rewrite length_insert.
    + unfold getIsPassed. simpl. destruct (passes o); [|lia].
      unfold Int.incr. unfold Int.INT_MAX in Hmax.
      rewrite Int_wrap_small by (unfold Int.INT_MAX; lia). lia.
  - assert (k = length ts) as -> by lia.
    rewrite Hlos, drop_all, <- Hlos, <- Hlen, firstn_all. simpl.
    unfold ret. rewrite emit_nil, app_nil_r. do 3 f_equal.
    + by destruct sub.
    + unfold count_passed. simpl. lia.
Qed.

Lemma checkSolution_run s task σ ts os :
  suites σ !! testSuite task = Some ts →
  contents σ ts os →
  Z.of_nat (length ts) ≤ Int.INT_MAX →
  checkSolution s task σ
  = Some ({| solution := s; results := result_of <$> os;
             totalPassed := count_passed (result_of <$> os) |},
          emit (os ≫= runTestCase_trace) σ).
Proof.
  intros Hs Hc Hmax. unfold checkSolution, getTestSuite.
  run_with (getTestCount_run _ _ _ Hs).
  unfold Submission_ctor.
  rewrite Int_wrap_small by lia.
  rewrite Int_to_size_t_small by (unfold Int.INT_MAX in Hmax; lia).
  destruct (Z.ltb_spec Int.INT_MAX (Z.of_nat (length ts))) as [?|_]; [lia|].
  erewrite (bind_run (ret _)) by reflexivity.
  rewrite Nat2Z.id. unfold getResults. cbn [results].
  erewrite bind_run.
  2:{ apply (checkSolution_loop_run s task ts os _ 0%nat); cbn [results];
        rewrite ?length_replicate; try done; lia. }
  unfold ret, setTotalPassed. simpl. by rewrite drop_0.
Qed.

Lemma live_contents σ ts :
  Forall (λ p, is_Some (heap σ !! p)) ts → ∃ os, contents σ ts os.
Proof.
  induction 1 as [|p ts [o Ho] _ [os IH]].
  - exists []. constructor.
  - exists (o :: os). by constructor.
Qed.

(** C1: [checkSolution] returns a Submission holding the given solution,
    with as many results as the suite's test count, the i-th result being
    the one [runTestCase] gives for the i-th test, and [totalPassed] equal
    to the number of results whose flag is set; for an empty suite there are
    no results and nothing passed. *)
Theorem checkSolution_spec (s : UserSolution) (task : Task) (σ : state)
    (ts : list addr) :
  suites σ !! testSuite task = Some ts →
  Forall (λ p, is_Some (heap σ !! p)) ts →
  Z.of_nat (length ts) ≤ Int.INT_MAX →
  ∃ sub σ',
    checkSolution s task σ = Some (sub, σ')
    ∧ getSolution sub = s
    ∧ getTestCount (getTestSuite task) σ'
      = Some (Z.of_nat (length (getResults sub)), σ')
    ∧ length (getResults sub) = length ts
    ∧ getTotalPassed sub = count_passed (getResults sub)
    ∧ (∀ (i : nat) (t : addr), ts !! i = Some t →
         ∃ r σ'', runTestCase s t σ = Some (r, σ'') ∧ getResults sub !! i = Some r)
    ∧ (ts = [] → getResults sub = [] ∧ getTotalPassed sub = 0).
Proof.
  intros Hs Hlive Hmax.
  destruct (live_contents _ _ Hlive) as [os Hc].
  pose proof (contents_length _ _ _ Hc) as Hlen.
  eexists _, _. split; [by apply (checkSolution_run s task σ ts os)|].
  unfold getSolution, getResults, getTotalPassed, getTestSuite. simpl.
  split_and!; try done.
  - rewrite (getTestCount_run _ _ ts) by done.
    rewrite length_fmap, <- Hlen, Int_wrap_small; [done|].
    unfold Int.INT_MAX in *. lia.
  - by rewrite length_fmap.
  - intros i t Ht.
    destruct (lookup_lt_is_Some_2 os i) as [o Ho].
    { rewrite <- Hlen. by eapply lookup_lt_Some. }
    pose proof (Forall2_lookup_lr _ ts os i t o Hc Ht Ho) as Hto.
    simpl in Hto.
    exists (result_of o), (emit (runTestCase_trace o) σ).
    split; [by apply runTestCase_run|].
    by rewrite list_lookup_fmap, Ho.
  - intros ->. destruct os; [done|]. inversion Hc.
Qed.

Lemma checkSolution_spec_witness :
  ∃ sub σ',
    checkSolution advanced_scenario_solution two_tests_task two_tests_state
    = Some (sub, σ')
    ∧ getSolution sub = advanced_scenario_solution
    ∧ getTestCount (getTestSuite two_tests_task) σ'
      = Some (Z.of_nat (length (getResults sub)), σ')
    ∧ length (getResults sub) = length [1%positive; 2%positive]
    ∧ getTotalPassed sub = count_passed (getResults sub)
    ∧ (∀ (i : nat) (t : addr), [1%positive; 2%positive] !! i = Some t →
         ∃ r σ'', runTestCase advanced_scenario_solution t two_tests_state
                  = Some (r, σ'')
                  ∧ getResults sub !! i = Some r)
    ∧ ([1%positive; 2%positive] = [] → getResults sub = [] ∧ getTotalPassed sub = 0).
Proof.
  apply checkSolution_spec.
  - reflexivity.
  - repeat constructor; vm_compute; eexists; reflexivity.
  - vm_compute. discriminate.
Defined.

(** Every line [checkSolution] writes comes from a test of the suite, in
    suite order, and each advanced test contributes its line twice. *)
Lemma checkSolution_trace s task σ ts os sub σ' :
  suites σ !! testSuite task = Some ts →
  contents σ ts os →
  Z.of_nat (length ts) ≤ Int.INT_MAX →
  checkSolution s task σ = Some (sub, σ') →
  cout σ' = cout σ ++ (os ≫= λ o, trace_of o ++ trace_of o).
Proof.
  intros Hs Hc Hmax. rewrite (checkSolution_run s task σ ts os) by done.
  intros [= <- <-]. done.
Qed.

(** C3 (evaluation at the failing input): a suite holding the single
    advanced test case [("x","x",3)] is checked once, and [cout] receives the
    trace line of that test twice, because [runTestCase] calls [runTest]
    twice. *)
Theorem checkSolution_runs_advanced_test_twice :
  fst <$> advanced_scenario initial_state
  = Some [ "Running advanced test with complexity level: 3";
           "Running advanced test with complexity level: 3" ]%string.
Proof. vm_compute. reflexivity. Qed.

(** ** The solution argument *)

Lemma checkSolution_loop_solution fuel s1 s2 task :
  ∀ i sub1 sub2 tp σ,
    results sub1 = results sub2 →
    (λ x, (results x.1.1, x.1.2, x.2)) <$> checkSolution_loop fuel s1 task i sub1 tp σ
    = (λ x, (results x.1.1, x.1.2, x.2)) <$> checkSolution_loop fuel s2 task i sub2 tp σ.
Proof.
  induction fuel as [|fuel IH]; intros i sub1 sub2 tp σ Hres; [done|].
  simpl. unfold bind.
  destruct (getTestCount (getTestSuite task) σ) as [[n σ1]|]; [|done].
  destruct (i <? Int.to_size_t n); [|by simpl; rewrite Hres].
  destruct (getTests (getTestSuite task) σ1) as [[tests σ2]|]; [|done].
  destruct (vector_at tests i σ2) as [[test σ3]|]; [|done].
  change (runTestCase s2 test σ3) with (runTestCase s1 test σ3).
  destruct (runTestCase s1 test σ3) as [[result σ4]|]; [|done].
  unfold set_result. rewrite Hres.
  destruct (decide (Z.to_nat i < length (results sub2))%nat); [|done].
  unfold ret. by apply IH.
Qed.

(** C7: the solution is not consulted: for any two solutions,
    [runTestCase] returns the same record and leaves the same state, the
    record being determined by the fields of the test-case object alone, and
    [checkSolution] produces the same results, the same [totalPassed] and
    the same state. *)
Theorem solution_noninterference (s1 s2 : UserSolution) :
  (∀ t σ, runTestCase s1 t σ = runTestCase s2 t σ)
  ∧ (∀ t σ, fst <$> runTestCase s1 t σ = result_of <$> heap σ !! t)
  ∧ (∀ task σ, outcome (checkSolution s1 task σ) = outcome (checkSolution s2 task σ)).
Proof.
  split_and!.
  - done.
  - intros t σ. destruct (heap σ !! t) as [o|] eqn:Ht.
    + by rewrite (runTestCase_run _ _ _ _ Ht).
    + by rewrite runTestCase_dangling.
  - intros task σ. unfold checkSolution, bind.
    destruct (getTestCount (getTestSuite task) σ) as [[n σ1]|]; [|done].
    unfold Submission_ctor.
    destruct (Int.INT_MAX <? Int.to_size_t n); [done|].
    unfold ret, getResults. cbn [results].
    pose proof (checkSolution_loop_solution
      (S (length (replicate (Z.to_nat (Int.to_size_t n)) ExecutionResult_ctor)))
      s1 s2 task 0
      {| solution := s1;
         results := replicate (Z.to_nat (Int.to_size_t n)) ExecutionResult_ctor;
         totalPassed := 0 |}
      {| solution := s2;
         results := replicate (Z.to_nat (Int.to_size_t n)) ExecutionResult_ctor;
         totalPassed := 0 |} 0 σ1 eq_refl) as H.
    destruct (checkSolution_loop _ s1 _ _ _ _ _) as [[[r1 tp1] σ1']|];
      destruct (checkSolution_loop _ s2 _ _ _ _ _) as [[[r2 tp2] σ2']|];
      simpl in *; try done.
Qed.

(** ** Allocation, cloning and release *)

Lemma fresh_not_live σ : heap σ !! fresh (dom (heap σ)) = None.
Proof. apply not_elem_of_dom, is_fresh. Qed.

Lemma fresh_suite_not_live σ : suites σ !! fresh (dom (suites σ)) = None.
Proof. apply not_elem_of_dom, is_fresh. Qed.

Lemma clone_run σ t o :
  heap σ !! t = Some o →
  clone t σ = Some (fresh (dom (heap σ)), set_heap <[fresh (dom (heap σ)):=o]> σ).
Proof.
  intros Ht. unfold clone, bind, deref. rewrite Ht. by destruct o.
Qed.

Lemma push_back_run σ a cur p :
  suites σ !! a = Some cur →
  push_back a p σ = Some ((), set_suites <[a:=cur ++ [p]]> σ).
Proof.
  intros Ha. unfold push_back, bind, get_tests, set_tests. rewrite Ha. simpl. by rewrite Ha.
Qed.

Lemma contents_weaken σ σ' ts os :
  (∀ p, p ∈ ts → heap σ' !! p = heap σ !! p) →
  contents σ ts os → contents σ' ts os.
Proof.
  intros Hsame Hc. unfold contents in *.
  induction Hc as [|p o ts os Hp Hc IH]; constructor.
  - rewrite Hsame; [done | by left].
  - apply IH. intros q Hq. apply Hsame. by right.
Qed.

Lemma contents_live σ ts os p : contents σ ts os → p ∈ ts → is_Some (heap σ !! p).
Proof.
  intros Hc Hp. unfold contents in Hc.
  destruct (list_elem_of_lookup_1 _ _ Hp) as [i Hi].
  destruct (Forall2_lookup_l _ _ _ _ _ Hc Hi) as (o & _ & Ho). by exists o.
Qed.

(** The cloning loop appends to [this] one new object per source element,
    equal to it, at an address that was free, and touches nothing else. *)
Lemma clone_into_run this others :
  ∀ os σ cur,
    suites σ !! this = Some cur →
    contents σ others os →
    ∃ news σ',
      clone_into this others σ = Some ((), σ')
      ∧ suites σ' = <[this:=cur ++ news]> (suites σ)
      ∧ contents σ' news os
      ∧ Forall (λ p, heap σ !! p = None) news
      ∧ NoDup news
      ∧ (∀ q, q ∉ news → heap σ' !! q = heap σ !! q)
      ∧ totalTestSuitesCreated σ' = totalTestSuitesCreated σ
      ∧ cout σ' = cout σ.
Proof.
  induction others as [|t others IH]; intros os σ cur Hthis Hc.
  - inversion Hc; subst. exists [], σ. split_and!; try done; try constructor.
    rewrite app_nil_r. by rewrite insert_id.
  - inversion Hc as [|? o ? os' Hto Hc']; subst.
    set (p := fresh (dom (heap σ))).
    set (σ1 := set_heap <[p:=o]> σ).
    set (σ2 := set_suites <[this:=cur ++ [p]]> σ1).
    assert (heap σ !! p = None) as Hp by apply fresh_not_live.
    destruct (IH os' σ2 (cur ++ [p])) as (news & σ' & Hrun & Hsu & Hcn & Hfr & Hnd & Hfrm & Hcnt & Hout).
    { simpl. apply lookup_insert_eq. }
    { eapply contents_weaken; [|exact Hc']. intros q Hq. simpl.
      rewrite lookup_insert_ne; [done|]. intros <-.
      destruct (contents_live _ _ _ _ Hc' Hq) as [x Hx]. congruence. }
    assert (p ∉ news) as Hpn.
    { intros Hin. rewrite Forall_forall in Hfr. specialize (Hfr _ Hin).
      simpl in Hfr. by rewrite lookup_insert_eq in Hfr. }
    exists (p :: news), σ'. split_and!.
    + assert ((q <- clone t ;; push_back this q) σ = Some ((), σ2)) as Hbody.
      { run_with (clone_run σ t o Hto). exact (push_back_run σ1 this cur p Hthis). }
      unfold clone_into. simpl. run_with Hbody. exact Hrun.
    + rewrite Hsu. simpl. rewrite insert_insert_eq. by rewrite <- app_assoc.
    + constructor; [|done]. rewrite Hfrm by done. simpl. apply lookup_insert_eq.
    + constructor; [done|]. eapply Forall_impl; [exact Hfr|].
      intros q Hq. simpl in Hq.
      destruct (decide (p = q)) as [<-|Hne]; [done|].
      by rewrite lookup_insert_ne in Hq.
    + by constructor.
    + intros q Hq. apply not_elem_of_cons in Hq as [Hqp Hqn].
      rewrite Hfrm by done. simpl. by rewrite lookup_insert_ne.
    + done.
    + done.
Qed.

(** Releasing a duplicate-free list of live objects removes exactly them. *)
Lemma delete_all_run ts :
  ∀ σ,
    NoDup ts →
    Forall (λ p, is_Some (heap σ !! p)) ts →
    ∃ σ',
      delete_all ts σ = Some ((), σ')
      ∧ (∀ q, q ∈ ts → heap σ' !! q = None)
      ∧ (∀ q, q ∉ ts → heap σ' !! q = heap σ !! q)
      ∧ suites σ' = suites σ
      ∧ totalTestSuitesCreated σ' = totalTestSuitesCreated σ
      ∧ cout σ' = cout σ.
Proof.
  induction ts as [|t ts IH]; intros σ Hnd Hlive.
  - exists σ. split_and!; try done. intros q Hq. by apply not_elem_of_nil in Hq.
  - apply NoDup_cons in Hnd as [Hnt Hnd].
    apply Forall_cons in Hlive as [[o Ho] Hlive].
    destruct (IH (set_heap (delete t) σ) Hnd) as (σ' & Hrun & Hgone & Hkept & Hsu & Hcnt & Hout).
    { eapply Forall_forall. intros q Hq. simpl.
      rewrite lookup_delete_ne by (intros ->; done).
      by apply (proj1 (Forall_forall _ _) Hlive). }
    exists σ'. split_and!; try done.
    + unfold delete_all. simpl. unfold bind at 1, delete_object. rewrite Ho. exact Hrun.
    + intros q [->|Hq]%elem_of_cons; [|by apply Hgone].
      rewrite Hkept by done. simpl. apply lookup_delete_eq.
    + intros q [Hqt Hq]%not_elem_of_cons. rewrite Hkept by done.
      simpl. by rewrite lookup_delete_ne.
Qed.

Lemma TestSuite_dtor_run σ a ts :
  suites σ !! a = Some ts →
  NoDup ts →
  Forall (λ p, is_Some (heap σ !! p)) ts →
  ∃ σ',
    TestSuite_dtor a σ = Some ((), σ')
    ∧ suites σ' = delete a (suites σ)
    ∧ (∀ q, q ∈ ts → heap σ' !! q = None)
    ∧ (∀ q, q ∉ ts → heap σ' !! q = heap σ !! q)
    ∧ totalTestSuitesCreated σ' = totalTestSuitesCreated σ
    ∧ cout σ' = cout σ.
Proof.
  intros Ha Hnd Hlive.
  destruct (delete_all_run ts σ Hnd Hlive) as (σ1 & Hrun & Hgone & Hkept & Hsu & Hcnt & Hout).
  exists (set_suites (delete a) σ1). split_and!; try done.
  - unfold TestSuite_dtor.
    erewrite (bind_run (get_tests a)) by (unfold get_tests; by rewrite Ha).
    by run_with Hrun.
  - simpl. by rewrite Hsu.
Qed.

Lemma delete_all_defined ts :
  ∀ σ, is_Some (delete_all ts σ)
       ↔ NoDup ts ∧ Forall (λ p, is_Some (heap σ !! p)) ts.
Proof.
  induction ts as [|t ts IH]; intros σ.
  - split; [intros _; split; constructor | by eexists].
  - split.
    + intros [x Hx]. unfold delete_all in Hx. simpl in Hx.
      unfold bind at 1, delete_object in Hx.
      destruct (heap σ !! t) as [o|] eqn:Ht; [|done].
      destruct (proj1 (IH (set_heap (delete t) σ))) as [Hnd Hlive]; [by eexists|].
      rewrite Forall_forall in Hlive. split.
      * constructor; [|done]. intros Hin.
        destruct (Hlive t Hin) as [y Hy]. simpl in Hy.
        by rewrite lookup_delete_eq in Hy.
      * constructor; [by eexists|]. apply Forall_forall. intros q Hq.
        destruct (Hlive q Hq) as [y Hy]. simpl in Hy.
        destruct (decide (t = q)) as [<-|Hne]; [by eexists|].
        rewrite lookup_delete_ne in Hy by done. by eexists.
    + intros [Hnd Hlive].
      destruct (delete_all_run (t :: ts) σ Hnd Hlive) as (σ' & -> & _). by eexists.
Qed.

Lemma delete_all_inv ts σ σ' :
  delete_all ts σ = Some ((), σ') →
  NoDup ts
  ∧ Forall (λ p, is_Some (heap σ !! p)) ts
  ∧ (∀ q, q ∈ ts → heap σ' !! q = None)
  ∧ (∀ q, q ∉ ts → heap σ' !! q = heap σ !! q)
  ∧ suites σ' = suites σ
  ∧ totalTestSuitesCreated σ' = totalTestSuitesCreated σ
  ∧ cout σ' = cout σ.
Proof.
  intros Hrun.
  destruct (proj1 (delete_all_defined ts σ)) as [Hnd Hlive]; [by eexists|].
  destruct (delete_all_run ts σ Hnd Hlive) as (σ'' & Hrun' & H).
  rewrite Hrun in Hrun'. injection Hrun' as <-.
  destruct H as (? & ? & ? & ? & ?). by split_and!.
Qed.

Lemma TestSuite_dtor_unfold σ a ts :
  suites σ !! a = Some ts →
  TestSuite_dtor a σ
  = match delete_all ts σ with
    | Some (_, σ1) => Some ((), set_suites (delete a) σ1)
    | None => None
    end.
Proof.
  intros Ha. unfold TestSuite_dtor.
  erewrite (bind_run (get_tests a)) by (unfold get_tests; by rewrite Ha).
  unfold bind. by destruct (delete_all ts σ) as [[[] σ1]|].
Qed.

Lemma TestSuite_dtor_inv σ a ts σ' :
  suites σ !! a = Some ts →
  TestSuite_dtor a σ = Some ((), σ') →
  NoDup ts
  ∧ Forall (λ p, is_Some (heap σ !! p)) ts
  ∧ suites σ' = delete a (suites σ)
  ∧ (∀ q, q ∈ ts → heap σ' !! q = None)
  ∧ (∀ q, q ∉ ts → heap σ' !! q = heap σ !! q)
  ∧ totalTestSuitesCreated σ' = totalTestSuitesCreated σ
  ∧ cout σ' = cout σ.
Proof.
  intros Ha. rewrite (TestSuite_dtor_unfold _ _ _ Ha).
  destruct (delete_all ts σ) as [[[] σ1]|] eqn:Hdel; [|done].
  intros [= <-].
  destruct (delete_all_inv _ _ _ Hdel) as (? & ? & ? & ? & Hsu & ? & ?).
  split_and!; try done. simpl. by rewrite Hsu.
Qed.

(** ** Deep copies *)

Lemma contents_all_live σ ts os :
  contents σ ts os → Forall (λ p, is_Some (heap σ !! p)) ts.
Proof.
  intros Hc. apply Forall_forall. intros p Hp. by eapply contents_live.
Qed.

Lemma deep_copy_intro σ c b ts' ts os :
  c ≠ b →
  suites σ !! c = Some ts' → suites σ !! b = Some ts →
  contents σ ts' os → contents σ ts os →
  NoDup ts' →
  (∀ p, p ∈ ts' → p ∉ ts) →
  deep_copy σ c b ts os.
Proof.
  intros Hcb Hc Hb Hcc Hcb' Hnd' Hdisj.
  exists ts'. split_and!; try done.
  - by rewrite (contents_length _ _ _ Hcc), (contents_length _ _ _ Hcb').
  - destruct (TestSuite_dtor_run σ c ts' Hc Hnd' (contents_all_live _ _ _ Hcc))
      as (σ' & Hrun & Hsu & _ & Hkept & _).
    exists σ'. split_and!; [done| |].
    + by rewrite Hsu, lookup_delete_ne.
    + eapply contents_weaken; [|exact Hcb']. intros p Hp. apply Hkept.
      intros Hp'. by apply (Hdisj p).
  - intros σ' Hrun.
    destruct (TestSuite_dtor_inv _ _ _ _ Hb Hrun) as (_ & _ & Hsu & _ & Hkept & _).
    split.
    + by rewrite Hsu, lookup_delete_ne.
    + eapply contents_weaken; [|exact Hcc]. intros p Hp. by apply Hkept, Hdisj.
  - intros Hnd.
    destruct (TestSuite_dtor_run σ b ts Hb Hnd (contents_all_live _ _ _ Hcb'))
      as (σ' & -> & _). by eexists.
Qed.

Lemma fresh_disjoint σ news ts os :
  Forall (λ p, heap σ !! p = None) news → contents σ ts os →
  ∀ p, p ∈ news → p ∉ ts.
Proof.
  intros Hfr Hc p Hp Hp'.
  rewrite Forall_forall in Hfr. specialize (Hfr p Hp).
  destruct (contents_live _ _ _ _ Hc Hp') as [o Ho]. congruence.
Qed.

(** The copy constructor builds, at a new address, a suite of fresh clones;
    it leaves every existing object, every existing suite, the counter and
    [cout] as they were. *)
Lemma TestSuite_copy_ctor_run σ b ts os :
  suites σ !! b = Some ts →
  contents σ ts os →
  ∃ c news σ',
    TestSuite_copy_ctor b σ = Some (c, σ')
    ∧ suites σ !! c = None
    ∧ suites σ' = <[c:=news]> (suites σ)
    ∧ contents σ' news os
    ∧ Forall (λ p, heap σ !! p = None) news
    ∧ NoDup news
    ∧ (∀ q, q ∉ news → heap σ' !! q = heap σ !! q)
    ∧ totalTestSuitesCreated σ' = totalTestSuitesCreated σ
    ∧ cout σ' = cout σ.
Proof.
  intros Hb Hc.
  set (c := fresh (dom (suites σ))).
  set (σ0 := set_suites <[c:=[]]> σ).
  assert (suites σ !! c = None) as Hfresh by apply fresh_suite_not_live.
  assert (c ≠ b) as Hne by congruence.
  destruct (clone_into_run c ts os σ0 []) as (news & σ' & Hrun & Hsu & Hcn & Hfr & Hnd & Hfrm & Hcnt & Hout).
  { simpl. apply lookup_insert_eq. }
  { done. }
  exists c, news, σ'. split_and!; try done.
  - unfold TestSuite_copy_ctor.
    erewrite (bind_run alloc_suite) by reflexivity.
    erewrite (bind_run (get_tests b)).
    2:{ unfold get_tests. simpl. rewrite lookup_insert_ne by done. by rewrite Hb. }
    by run_with Hrun.
  - rewrite Hsu. simpl. by rewrite insert_insert_eq.
Qed.

Lemma TestSuite_copy_ctor_deep σ b ts os :
  suites σ !! b = Some ts →
  contents σ ts os →
  ∃ c σ',
    TestSuite_copy_ctor b σ = Some (c, σ')
    ∧ suites σ !! c = None
    ∧ deep_copy σ' c b ts os
    ∧ (∀ a, a ≠ c → suites σ' !! a = suites σ !! a)
    ∧ (∀ q, is_Some (heap σ !! q) → heap σ' !! q = heap σ !! q)
    ∧ totalTestSuitesCreated σ' = totalTestSuitesCreated σ
    ∧ cout σ' = cout σ.
Proof.
  intros Hb Hc.
  destruct (TestSuite_copy_ctor_run σ b ts os Hb Hc)
    as (c & news & σ' & Hrun & Hfresh & Hsu & Hcn & Hfr & Hndn & Hfrm & Hcnt & Hout).
  assert (c ≠ b) as Hne by congruence.
  pose proof (fresh_disjoint _ _ _ _ Hfr Hc) as Hdisj.
  assert (∀ q, is_Some (heap σ !! q) → heap σ' !! q = heap σ !! q) as Hold.
  { intros q [x Hq]. apply Hfrm. intros Hin.
    rewrite Forall_forall in Hfr. specialize (Hfr q Hin). congruence. }
  exists c, σ'. split_and!; try done.
  - apply (deep_copy_intro σ' c b news ts os); try done.
    + rewrite Hsu. apply lookup_insert_eq.
    + by rewrite Hsu, lookup_insert_ne.
    + eapply contents_weaken; [|exact Hc]. intros p Hp.
      apply Hold. by eapply contents_live.
  - intros a Ha. by rewrite Hsu, lookup_insert_ne.
Qed.

(** Copy assignment between two different suites, split at the point where
    the destination's former elements have been released. *)
Lemma operator_assign_run σ a b old ts os :
  a ≠ b →
  suites σ !! a = Some old → suites σ !! b = Some ts →
  NoDup old → Forall (λ p, is_Some (heap σ !! p)) old →
  contents σ ts os →
  (∀ p, p ∈ old → p ∉ ts) →
  ∃ σ1 σ',
    (ts0 <- get_tests a ;; delete_all ts0) σ = Some ((), σ1)
    ∧ Forall (λ p, heap σ1 !! p = None) old
    ∧ contents σ1 ts os
    ∧ (set_tests a [] ;; others <- get_tests b ;; clone_into a others) σ1
      = Some ((), σ')
    ∧ operator_assign a b σ = Some ((), σ')
    ∧ deep_copy σ' a b ts os
    ∧ totalTestSuitesCreated σ' = totalTestSuitesCreated σ
    ∧ cout σ' = cout σ.
Proof.
  intros Hne Ha Hb Hndo Hlive Hc Hdisj.
  destruct (delete_all_run old σ Hndo Hlive)
    as (σ1 & Hdel & Hgone & Hkept & Hsu1 & Hcnt1 & Hout1).
  assert (contents σ1 ts os) as Hc1.
  { eapply contents_weaken; [|exact Hc]. intros p Hp. apply Hkept.
    intros Hp'. by apply (Hdisj p). }
  set (σ2 := set_suites <[a:=[]]> σ1).
  destruct (clone_into_run a ts os σ2 [])
    as (news & σ' & Hrun & Hsu & Hcn & Hfr & Hndn & Hfrm & Hcnt & Hout).
  { simpl. apply lookup_insert_eq. }
  { done. }
  assert ((ts0 <- get_tests a ;; delete_all ts0) σ = Some ((), σ1)) as Hfirst.
  { erewrite (bind_run (get_tests a)) by (unfold get_tests; by rewrite Ha). done. }
  assert ((set_tests a [] ;; others <- get_tests b ;; clone_into a others) σ1
          = Some ((), σ')) as Hsecond.
  { erewrite (bind_run (set_tests a [])).
    2:{ unfold set_tests. by rewrite Hsu1, Ha. }
    erewrite (bind_run (get_tests b)).
    2:{ unfold get_tests. simpl. rewrite lookup_insert_ne by done.
        by rewrite Hsu1, Hb. }
    done. }
  exists σ1, σ'. split_and!; try done.
  - apply Forall_forall. intros p Hp. by apply Hgone.
  - unfold operator_assign. destruct (decide (a ≠ b)) as [_|Heq]; [|done].
    erewrite (bind_run (get_tests a)) by (unfold get_tests; by rewrite Ha).
    run_with Hdel. exact Hsecond.
  - apply (deep_copy_intro σ' a b news ts os); try done.
    + rewrite Hsu. simpl. rewrite insert_insert_eq. apply lookup_insert_eq.
    + rewrite Hsu. simpl. rewrite !lookup_insert_ne by done. by rewrite Hsu1.
    + eapply contents_weaken; [|exact Hc1]. intros p Hp. apply Hfrm.
      intros Hp'. by apply (fresh_disjoint σ2 news ts os Hfr Hc1 p).
    + by apply (fresh_disjoint σ2 news ts os).
  - by rewrite Hcnt.
  - by rewrite Hout.
Qed.

Lemma operator_assign_self σ a : operator_assign a a σ = Some ((), σ).
Proof. unfold operator_assign. by destruct (decide (a ≠ a)). Qed.

(** C6: the deep-copy law, each operation under its own conditions.
    Copy construction from a suite [b] whose pointers are live (values
    [os]) yields a new suite object that is a deep copy of [b]: same count,
    equal objects of the same dynamic type at each position, no shared
    element, and each suite survives the destruction of the other; nothing
    is asked of any other suite.  Copy assignment [a = b] between different
    suites, where [a] owns live, pairwise distinct elements that are not
    elements of [b], first releases every former element of [a] and then
    makes [a] a deep copy of [b].  Assigning a suite to itself changes
    nothing, in any state. *)
Theorem deep_copy_law :
  (∀ (σ : state) (b : addr) (ts : list addr) (os : list TestCaseBase),
     suites σ !! b = Some ts →
     contents σ ts os →
     ∃ c σ', TestSuite_copy_ctor b σ = Some (c, σ')
             ∧ suites σ !! c = None
             ∧ deep_copy σ' c b ts os)
  ∧ (∀ (σ : state) (a b : addr) (old ts : list addr) (os : list TestCaseBase),
       a ≠ b →
       suites σ !! a = Some old → suites σ !! b = Some ts →
       NoDup old → Forall (λ p, is_Some (heap σ !! p)) old →
       contents σ ts os →
       (∀ p, p ∈ old → p ∉ ts) →
       ∃ σ1 σ',
         (ts0 <- get_tests a ;; delete_all ts0) σ = Some ((), σ1)
         ∧ Forall (λ p, heap σ1 !! p = None) old
         ∧ (set_tests a [] ;; others <- get_tests b ;; clone_into a others) σ1
           = Some ((), σ')
         ∧ operator_assign a b σ = Some ((), σ')
         ∧ deep_copy σ' a b ts os)
  ∧ (∀ (σ : state) (a : addr), operator_assign a a σ = Some ((), σ)).
Proof.
  split_and!.
  - intros σ b ts os Hb Hc.
    destruct (TestSuite_copy_ctor_deep σ b ts os Hb Hc)
      as (c & σ' & Hrun & Hfresh & Hdeep & _).
    by exists c, σ'.
  - intros σ a b old ts os Hne Ha Hb Hndo Hlive Hc Hdisj.
    destruct (operator_assign_run σ a b old ts os Hne Ha Hb Hndo Hlive Hc Hdisj)
      as (σ1 & σ' & H1 & H2 & _ & H3 & H4 & H5 & _).
    by exists σ1, σ'.
  - intros σ a. apply operator_assign_self.
Qed.

Lemma deep_copy_law_witness :
  (∃ c σ', TestSuite_copy_ctor 1%positive one_suite_state = Some (c, σ')
           ∧ suites one_suite_state !! c = None
           ∧ deep_copy σ' c 1%positive [1%positive; 2%positive] one_suite_objects)
  ∧ (∃ σ1 σ',
       (ts0 <- get_tests 1%positive ;; delete_all ts0) two_suites_state = Some ((), σ1)
       ∧ Forall (λ p, heap σ1 !! p = None) [1%positive]
       ∧ (set_tests 1%positive [] ;; others <- get_tests 2%positive ;;
          clone_into 1%positive others) σ1
         = Some ((), σ')
       ∧ operator_assign 1%positive 2%positive two_suites_state = Some ((), σ')
       ∧ deep_copy σ' 1%positive 2%positive [2%positive; 3%positive] two_suites_objects)
  ∧ operator_assign 1%positive 1%positive one_suite_state = Some ((), one_suite_state).
Proof.
  split_and!.
  - apply (proj1 deep_copy_law one_suite_state 1%positive).
    + reflexivity.
    + repeat constructor.
  - apply (proj1 (proj2 deep_copy_law) two_suites_state 1%positive 2%positive
             [1%positive]).
    + discriminate.
    + reflexivity.
    + reflexivity.
    + apply NoDup_singleton.
    + repeat constructor. vm_compute. eexists. reflexivity.
    + repeat constructor.
    + intros p ->%list_elem_of_singleton Hin%list_elem_of_In.
      simpl in Hin. intuition discriminate.
  - apply (proj2 (proj2 deep_copy_law)).
Defined.

(** C9: [shallowCopy] makes the receiving suite hold the very pointers of
    the other suite, in the same order; no object is created or released,
    the other suite keeps its pointers, so both suites now refer to the same
    instances. *)
Theorem shallowCopy_aliases (σ : state) (a b : addr) (tsa tsb : list addr) :
  suites σ !! a = Some tsa → suites σ !! b = Some tsb →
  ∃ σ',
    shallowCopy a b σ = Some ((), σ')
    ∧ suites σ' !! a = Some tsb
    ∧ suites σ' !! b = Some tsb
    ∧ heap σ' = heap σ
    ∧ (∀ c, c ≠ a → suites σ' !! c = suites σ !! c)
    ∧ totalTestSuitesCreated σ' = totalTestSuitesCreated σ
    ∧ cout σ' = cout σ.
Proof.
  intros Ha Hb. exists (set_suites <[a:=tsb]> σ). split_and!; try done.
  - unfold shallowCopy.
    erewrite (bind_run (get_tests b)) by (unfold get_tests; by rewrite Hb).
    unfold set_tests. by rewrite Ha.
  - simpl. apply lookup_insert_eq.
  - simpl. destruct (decide (a = b)) as [->|Hne].
    + apply lookup_insert_eq.
    + by rewrite lookup_insert_ne.
  - intros c Hc. simpl. by rewrite lookup_insert_ne.
Qed.

Lemma shallowCopy_aliases_witness :
  ∃ σ',
    shallowCopy 1%positive 2%positive two_suites_state = Some ((), σ')
    ∧ suites σ' !! 1%positive = Some [2%positive; 3%positive]
    ∧ suites σ' !! 2%positive = Some [2%positive; 3%positive]
    ∧ heap σ' = heap two_suites_state
    ∧ (∀ c, c ≠ 1%positive → suites σ' !! c = suites two_suites_state !! c)
    ∧ totalTestSuitesCreated σ' = totalTestSuitesCreated two_suites_state
    ∧ cout σ' = cout two_suites_state.
Proof.
  apply (shallowCopy_aliases two_suites_state 1%positive 2%positive [1%positive]).
  - reflexivity.
  - reflexivity.
Defined.

(** ** The suite counter *)

Lemma TestSuite_ctor_counter σ :
  ∃ a σ', TestSuite_ctor σ = Some (a, σ')
          ∧ totalTestSuitesCreated σ' = Int.incr (totalTestSuitesCreated σ).
Proof. by eexists _, _. Qed.

(** C2 (evaluation at the failing input): starting from the initial state,
    where the counter is 0, two suites are constructed and the first is
    copy-constructed; the counter then reads 2, because the copy constructor
    does not touch it.  The run of [main], which builds one suite and one
    Task holding a copy of it, ends with the counter at 1. *)
Theorem copy_construction_is_not_counted :
  totalTestSuitesCreated initial_state = 0
  ∧ fst <$> counter_scenario initial_state = Some 2
  ∧ (snd ∘ fst) <$> main initial_state = Some 1.
Proof. split_and!; vm_compute; reflexivity. Qed.

(** * Further properties of the code *)

(** ** Cloning one object *)

(** X1: [clone] on a live object returns the address of a new object that
    did not exist before and is equal to the receiver, dynamic type
    included (an advanced case is never cloned into a base case); the
    receiver and every other object stay as they were, and so do the suites,
    the counter and [cout]. *)
Theorem clone_spec (σ : state) (t : addr) (o : TestCaseBase) :
  heap σ !! t = Some o →
  ∃ p σ',
    clone t σ = Some (p, σ')
    ∧ p ≠ t
    ∧ heap σ !! p = None
    ∧ heap σ' !! p = Some o
    ∧ (∀ q, q ≠ p → heap σ' !! q = heap σ !! q)
    ∧ suites σ' = suites σ
    ∧ totalTestSuitesCreated σ' = totalTestSuitesCreated σ
    ∧ cout σ' = cout σ.
Proof.
  intros Ht.
  pose proof (fresh_not_live σ) as Hfresh.
  eexists _, _. split; [by apply clone_run|].
  split_and!; try done.
  - congruence.
  - simpl. apply lookup_insert_eq.
  - intros q Hq. simpl. by rewrite lookup_insert_ne.
Qed.

Lemma clone_spec_witness :
  ∃ p σ',
    clone 7%positive advanced_state = Some (p, σ')
    ∧ p ≠ 7%positive
    ∧ heap advanced_state !! p = None
    ∧ heap σ' !! p = Some (AdvancedTestCase "x" "x" 1)
    ∧ (∀ q, q ≠ p → heap σ' !! q = heap advanced_state !! q)
    ∧ suites σ' = suites advanced_state
    ∧ totalTestSuitesCreated σ' = totalTestSuitesCreated advanced_state
    ∧ cout σ' = cout advanced_state.
Proof. apply clone_spec. reflexivity. Defined.

(** ** Building a suite *)

(** X2: [addTest] appends: after adding [p] and then [q] to a suite holding
    [ts], [getTests] returns [ts ++ [p; q]], so insertion order is test
    order, and [getTestCount] has grown by two as long as the size fits in
    [int].  The pointers are stored as given, without any check; no object
    and no other suite is touched. *)
Theorem addTest_appends (σ : state) (a : addr) (ts : list addr) (p q : addr) :
  suites σ !! a = Some ts →
  ∃ σ',
    (addTest a p ;; addTest a q) σ = Some ((), σ')
    ∧ getTests a σ' = Some (ts ++ [p; q], σ')
    ∧ (Z.of_nat (length ts) + 2 ≤ Int.INT_MAX →
       getTestCount a σ' = Some (Z.of_nat (length ts) + 2, σ'))
    ∧ heap σ' = heap σ
    ∧ (∀ b, b ≠ a → suites σ' !! b = suites σ !! b)
    ∧ totalTestSuitesCreated σ' = totalTestSuitesCreated σ
    ∧ cout σ' = cout σ.
Proof.
  intros Ha.
  set (σ1 := set_suites <[a:=ts ++ [p]]> σ).
  set (σ2 := set_suites <[a:=(ts ++ [p]) ++ [q]]> σ1).
  assert (suites σ2 !! a = Some (ts ++ [p; q])) as Ha2.
  { simpl. rewrite lookup_insert_eq. by rewrite <- app_assoc. }
  exists σ2. split_and!; try done.
  - unfold addTest. run_with (push_back_run σ a ts p Ha).
    apply push_back_run. simpl. apply lookup_insert_eq.
  - by apply getTests_run.
  - intros Hmax. rewrite (getTestCount_run _ _ _ Ha2).
    rewrite length_app. simpl.
    rewrite Int_wrap_small; [do 2 f_equal; lia|].
    unfold Int.INT_MAX in *. lia.
  - intros b Hb. simpl. by rewrite !lookup_insert_ne.
Qed.

Lemma addTest_appends_witness :
  ∃ σ',
    (addTest 1%positive 9%positive ;; addTest 1%positive 2%positive) two_suites_state
    = Some ((), σ')
    ∧ getTests 1%positive σ' = Some ([1%positive] ++ [9%positive; 2%positive], σ')
    ∧ (Z.of_nat (length [1%positive]) + 2 ≤ Int.INT_MAX →
       getTestCount 1%positive σ' = Some (Z.of_nat (length [1%positive]) + 2, σ'))
    ∧ heap σ' = heap two_suites_state
    ∧ (∀ b, b ≠ 1%positive → suites σ' !! b = suites two_suites_state !! b)
    ∧ totalTestSuitesCreated σ' = totalTestSuitesCreated two_suites_state
    ∧ cout σ' = cout two_suites_state.
Proof. apply addTest_appends. reflexivity. Defined.

(** X3: the default constructor makes a suite object that did not exist
    before, with no tests ([getTests] is empty, [getTestCount] is 0); it
    leaves the other suites and all objects alone, and the counter read by
    [getTotalTestSuitesCreated] afterwards is one more than before. *)
Theorem TestSuite_ctor_spec (σ : state) :
  - 2 ^ 31 ≤ totalTestSuitesCreated σ < Int.INT_MAX →
  ∃ a σ',
    TestSuite_ctor σ = Some (a, σ')
    ∧ suites σ !! a = None
    ∧ getTests a σ' = Some ([], σ')
    ∧ getTestCount a σ' = Some (0, σ')
    ∧ getTotalTestSuitesCreated σ' = Some (totalTestSuitesCreated σ + 1, σ')
    ∧ (∀ b, b ≠ a → suites σ' !! b = suites σ !! b)
    ∧ heap σ' = heap σ
    ∧ cout σ' = cout σ.
Proof.
  intros Hrange.
  set (a := fresh (dom (suites σ))).
  exists a, (set_counter Int.incr (set_suites <[a:=[]]> σ)).
  assert (suites (set_counter Int.incr (set_suites <[a:=[]]> σ)) !! a = Some [])
    as Ha by (simpl; apply lookup_insert_eq).
  split_and!; try done.
  - apply fresh_suite_not_live.
  - by apply getTests_run.
  - by rewrite (getTestCount_run _ _ _ Ha).
  - unfold getTotalTestSuitesCreated. simpl. unfold Int.incr.
    rewrite Int_wrap_small; [done|]. unfold Int.INT_MAX in *. lia.
  - intros b Hb. simpl. by rewrite lookup_insert_ne.
Qed.

Lemma TestSuite_ctor_spec_witness :
  ∃ a σ',
    TestSuite_ctor two_suites_state = Some (a, σ')
    ∧ suites two_suites_state !! a = None
    ∧ getTests a σ' = Some ([], σ')
    ∧ getTestCount a σ' = Some (0, σ')
    ∧ getTotalTestSuitesCreated σ'
      = Some (totalTestSuitesCreated two_suites_state + 1, σ')
    ∧ (∀ b, b ≠ a → suites σ' !! b = suites two_suites_state !! b)
    ∧ heap σ' = heap two_suites_state
    ∧ cout σ' = cout two_suites_state.
Proof. apply TestSuite_ctor_spec. simpl. unfold Int.INT_MAX. lia. Defined.

(** ** Destruction and aliasing *)

Lemma TestSuite_dtor_dangling_head σ b t ts :
  suites σ !! b = Some (t :: ts) → heap σ !! t = None →
  TestSuite_dtor b σ = None.
Proof.
  intros Hb Ht. rewrite (TestSuite_dtor_unfold _ _ _ Hb).
  unfold delete_all. simpl. unfold bind, delete_object. by rewrite Ht.
Qed.



(** The destructor at work on both sides of X4: it returns on the suite at
    address 2 of [two_suites_state], which owns two live objects, and it
    has no result on the suite of [duplicate_state], which holds the same
    pointer twice. *)
Example TestSuite_dtor_runs :
  is_Some (TestSuite_dtor 2%positive two_suites_state)
  ∧ TestSuite_dtor 1%positive duplicate_state = None.
Proof. split; [vm_compute; by eexists | vm_compute; reflexivity]. Qed.

(** X5: after [a.shallowCopy(b)], where [b] holds at least one pointer and
    its pointers are non-null, destroying both suites is undefined in either
    order: the first destructor releases the shared elements and the second
    one deletes them again. *)
Theorem shallowCopy_double_delete (σ : state) (a b : addr)
    (tsa tsb : list addr) (t : addr) :
  a ≠ b →
  suites σ !! a = Some tsa → suites σ !! b = Some (t :: tsb) →
  (shallowCopy a b ;; TestSuite_dtor a ;; TestSuite_dtor b) σ = None
  ∧ (shallowCopy a b ;; TestSuite_dtor b ;; TestSuite_dtor a) σ = None.
Proof.
  intros Hne Ha Hb.
  set (σ1 := set_suites <[a:=t :: tsb]> σ).
  assert (shallowCopy a b σ = Some ((), σ1)) as Hcopy.
  { unfold shallowCopy.
    erewrite (bind_run (get_tests b)) by (unfold get_tests; by rewrite Hb).
    unfold set_tests. by rewrite Ha. }
  assert (suites σ1 !! a = Some (t :: tsb)) as Ha1 by (simpl; apply lookup_insert_eq).
  assert (suites σ1 !! b = Some (t :: tsb)) as Hb1.
  { simpl. by rewrite lookup_insert_ne. }
  split; run_with Hcopy; unfold bind.
  - destruct (TestSuite_dtor a σ1) as [[[] σ2]|] eqn:Hd; [|done].
    destruct (TestSuite_dtor_inv _ _ _ _ Ha1 Hd) as (_ & _ & Hsu & Hgone & _).
    apply (TestSuite_dtor_dangling_head σ2 b t tsb).
    + by rewrite Hsu, lookup_delete_ne.
    + apply Hgone. by left.
  - destruct (TestSuite_dtor b σ1) as [[[] σ2]|] eqn:Hd; [|done].
    destruct (TestSuite_dtor_inv _ _ _ _ Hb1 Hd) as (_ & _ & Hsu & Hgone & _).
    apply (TestSuite_dtor_dangling_head σ2 a t tsb).
    + by rewrite Hsu, lookup_delete_ne.
    + apply Hgone. by left.
Qed.

Lemma shallowCopy_double_delete_witness :
  (shallowCopy 1%positive 2%positive ;; TestSuite_dtor 1%positive ;;
   TestSuite_dtor 2%positive) two_suites_state = None
  ∧ (shallowCopy 1%positive 2%positive ;; TestSuite_dtor 2%positive ;;
     TestSuite_dtor 1%positive) two_suites_state = None.
Proof.
  apply (shallowCopy_double_delete two_suites_state 1%positive 2%positive
           [1%positive] [3%positive] 2%positive).
  - discriminate.
  - reflexivity.
  - reflexivity.
Defined.

(** X6: copy assignment [a = b] between two different suites is undefined
    when the first element of [b] is also held by [a] (as after
    [a.shallowCopy(b)]): the element is released with the contents of [a]
    before the loop over [b] clones it. *)
Theorem operator_assign_aliased (σ : state) (a b : addr)
    (tsa tsb : list addr) (t : addr) :
  a ≠ b →
  suites σ !! a = Some tsa → suites σ !! b = Some (t :: tsb) →
  t ∈ tsa →
  operator_assign a b σ = None.
Proof.
  intros Hne Ha Hb Hin. unfold operator_assign.
  destruct (decide (a ≠ b)) as [_|?]; [|done].
  erewrite (bind_run (get_tests a)) by (unfold get_tests; by rewrite Ha).
  unfold bind at 1.
  destruct (delete_all tsa σ) as [[[] σ1]|] eqn:Hdel; [|done].
  destruct (delete_all_inv _ _ _ Hdel) as (_ & _ & Hgone & _ & Hsu & _).
  erewrite (bind_run (set_tests a [])).
  2:{ unfold set_tests. by rewrite Hsu, Ha. }
  erewrite (bind_run (get_tests b)).
  2:{ unfold get_tests. simpl. rewrite lookup_insert_ne by done.
      by rewrite Hsu, Hb. }
  unfold clone_into. simpl. unfold bind, clone, bind, deref. simpl.
  by rewrite (Hgone t Hin).
Qed.

Lemma operator_assign_aliased_witness :
  operator_assign 1%positive 2%positive aliased_state = None.
Proof.
  apply (operator_assign_aliased aliased_state 1%positive 2%positive
           [2%positive; 3%positive] [3%positive] 2%positive).
  - discriminate.
  - reflexivity.
  - reflexivity.
  - by left.
Defined.

(** X7: copy construction repairs aliasing inside a suite: from any suite
    whose pointers are live, even one holding the same pointer several
    times, it builds a suite of pairwise distinct new objects, one per
    position and equal to the source's, so the copy can always be
    destroyed. *)
Theorem copy_owns_distinct_elements (σ : state) (b : addr) (ts : list addr)
    (os : list TestCaseBase) :
  suites σ !! b = Some ts →
  contents σ ts os →
  ∃ c news σ',
    TestSuite_copy_ctor b σ = Some (c, σ')
    ∧ suites σ' !! c = Some news
    ∧ length news = length ts
    ∧ NoDup news
    ∧ contents σ' news os
    ∧ (∀ p, p ∈ news → p ∉ ts)
    ∧ is_Some (TestSuite_dtor c σ').
Proof.
  intros Hb Hc.
  destruct (TestSuite_copy_ctor_run σ b ts os Hb Hc)
    as (c & news & σ' & Hrun & Hfresh & Hsu & Hcn & Hfr & Hnd & Hfrm & _).
  assert (suites σ' !! c = Some news) as Hc'.
  { rewrite Hsu. apply lookup_insert_eq. }
  exists c, news, σ'. split_and!; try done.
  - by rewrite (contents_length _ _ _ Hcn), (contents_length _ _ _ Hc).
  - by apply (fresh_disjoint σ news ts os).
  - destruct (TestSuite_dtor_run σ' c news Hc' Hnd (contents_all_live _ _ _ Hcn))
      as (σ'' & -> & _). by eexists.
Qed.

Lemma copy_owns_distinct_elements_witness :
  ∃ c news σ',
    TestSuite_copy_ctor 1%positive duplicate_state = Some (c, σ')
    ∧ suites σ' !! c = Some news
    ∧ length news = length [1%positive; 1%positive]
    ∧ NoDup news
    ∧ contents σ' news [TestCase "input1" "input1"; TestCase "input1" "input1"]
    ∧ (∀ p, p ∈ news → p ∉ [1%positive; 1%positive])
    ∧ is_Some (TestSuite_dtor c σ').
Proof.
  apply (copy_owns_distinct_elements duplicate_state 1%positive).
  - reflexivity.
  - repeat constructor.
Defined.

(** ** More on [checkSolution] *)

Lemma checkSolution_loop_live s task ts fuel :
  ∀ (k : nat) sub tp σ r σ',
    suites σ !! testSuite task = Some ts →
    Z.of_nat (length ts) ≤ Int.INT_MAX →
    checkSolution_loop fuel s task (Z.of_nat k) sub tp σ = Some (r, σ') →
    Forall (λ p, is_Some (heap σ !! p)) (drop k ts).
Proof.
  induction fuel as [|fuel IH]; intros k sub tp σ r σ' Hs Hmax Hrun; [done|].
  assert (Int.to_size_t (Int.wrap (Z.of_nat (length ts))) = Z.of_nat (length ts)) as Hn.
  { unfold Int.INT_MAX in Hmax.
    rewrite Int_wrap_small by (unfold Int.INT_MAX; lia).
    apply Int_to_size_t_small. lia. }
  simpl in Hrun. unfold getTestSuite in Hrun.
  rewrite (bind_run _ _ _ _ _ (getTestCount_run _ _ _ Hs)), Hn in Hrun.
  destruct (Z.ltb_spec (Z.of_nat k) (Z.of_nat (length ts))) as [Hlt|Hge].
  - destruct (lookup_lt_is_Some_2 ts k ltac:(lia)) as [t Ht].
    rewrite (bind_run _ _ _ _ _ (getTests_run _ _ _ Hs)) in Hrun.
    unfold vector_at in Hrun. rewrite Nat2Z.id, Ht in Hrun.
    rewrite (bind_run (ret t) _ σ t σ eq_refl) in Hrun.
    destruct (heap σ !! t) as [o|] eqn:Hto.
    2:{ unfold bind in Hrun. by rewrite (runTestCase_dangling s σ t Hto) in Hrun. }
    rewrite (bind_run _ _ _ _ _ (runTestCase_run s σ t o Hto)) in Hrun.
    unfold bind at 1 in Hrun.
    destruct (set_result sub (Z.of_nat k) (result_of o) _) as [[sub' σ1]|] eqn:Hset;
      [|done].
    unfold set_result in Hset.
    destruct (decide _) in Hset; [|done]. injection Hset as <- <-.
    assert ((Z.of_nat k + 1) mod 2 ^ 64 = Z.of_nat (S k)) as Hk.
    { unfold Int.INT_MAX in Hmax. rewrite Z.mod_small; lia. }
    rewrite Hk in Hrun.
    apply IH in Hrun; [|done..].
    rewrite (drop_S ts t k Ht). constructor; [by eexists | done].
  - rewrite drop_ge by lia. constructor.
Qed.

(** X8: for a suite whose size fits in [int], [checkSolution] returns
    exactly when every test pointer of the Task's suite points to a live
    object; one dangling pointer anywhere in the suite leaves the whole call
    without a result. *)
Theorem checkSolution_defined (s : UserSolution) (task : Task) (σ : state)
    (ts : list addr) :
  suites σ !! testSuite task = Some ts →
  Z.of_nat (length ts) ≤ Int.INT_MAX →
  (is_Some (checkSolution s task σ)
   ↔ Forall (λ p, is_Some (heap σ !! p)) ts).
Proof.
  intros Hs Hmax. split.
  - intros [[sub σ'] Hrun]. unfold checkSolution, getTestSuite in Hrun.
    rewrite (bind_run _ _ _ _ _ (getTestCount_run _ _ _ Hs)) in Hrun.
    unfold bind at 1 in Hrun.
    destruct (Submission_ctor s _ σ) as [[sub0 σ0]|] eqn:Hctor; [|done].
    unfold Submission_ctor in Hctor.
    destruct (_ <? _) in Hctor; [done|]. injection Hctor as <- <-.
    unfold bind in Hrun.
    destruct (checkSolution_loop _ _ _ _ _ _ _) as [[r σ1]|] eqn:Hloop; [|done].
    apply (checkSolution_loop_live s task ts _ 0%nat) in Hloop; [|done..].
    by rewrite drop_0 in Hloop.
  - intros Hlive. destruct (live_contents _ _ Hlive) as [os Hc].
    rewrite (checkSolution_run s task σ ts os) by done. by eexists.
Qed.

Lemma checkSolution_defined_witness :
  is_Some (checkSolution advanced_scenario_solution two_tests_task dangling_state)
  ↔ Forall (λ p, is_Some (heap dangling_state !! p)) [1%positive; 2%positive].
Proof.
  apply checkSolution_defined.
  - reflexivity.
  - vm_compute. discriminate.
Defined.

Lemma runTestCase_trace_length os :
  length (os ≫= runTestCase_trace) = (2 * advanced_count os)%nat.
Proof.
  induction os as [|o os IH]; [done|].
  change ((o :: os) ≫= runTestCase_trace)
    with (runTestCase_trace o ++ (os ≫= runTestCase_trace)).
  rewrite length_app, IH. unfold advanced_count. destruct o; simpl; lia.
Qed.

(** X9: what [checkSolution] writes: for each advanced test of the suite,
    in suite order, its trace line twice; nothing for a base test.  So the
    number of lines grows by twice the number of advanced tests, and a suite
    of base tests leaves [cout] as it was. *)
Theorem checkSolution_output (s : UserSolution) (task : Task) (σ : state)
    (ts : list addr) (os : list TestCaseBase) :
  suites σ !! testSuite task = Some ts →
  contents σ ts os →
  Z.of_nat (length ts) ≤ Int.INT_MAX →
  ∃ sub σ',
    checkSolution s task σ = Some (sub, σ')
    ∧ cout σ' = cout σ ++ (os ≫= λ o, trace_of o ++ trace_of o)
    ∧ length (cout σ') = (length (cout σ) + 2 * advanced_count os)%nat
    ∧ (advanced_count os = 0%nat → cout σ' = cout σ).
Proof.
  intros Hs Hc Hmax. eexists _, _.
  split; [by apply (checkSolution_run s task σ ts os)|].
  simpl. split_and!.
  - done.
  - by rewrite length_app, runTestCase_trace_length.
  - intros H0. pose proof (runTestCase_trace_length os) as Hlen.
    rewrite H0 in Hlen. apply nil_length_inv in Hlen.
    rewrite Hlen. apply app_nil_r.
Qed.

Lemma checkSolution_output_witness :
  ∃ sub σ',
    checkSolution advanced_scenario_solution two_tests_task two_tests_state
    = Some (sub, σ')
    ∧ cout σ' = cout two_tests_state
                ++ ([TestCase "input1" "input1"; AdvancedTestCase "x" "x" 1]
                      ≫= λ o, trace_of o ++ trace_of o)
    ∧ length (cout σ')
      = (length (cout two_tests_state)
         + 2 * advanced_count [TestCase "input1" "input1";
                               AdvancedTestCase "x" "x" 1])%nat
    ∧ (advanced_count [TestCase "input1" "input1"; AdvancedTestCase "x" "x" 1]
       = 0%nat → cout σ' = cout two_tests_state).
Proof.
  apply (checkSolution_output _ _ _ [1%positive; 2%positive]).
  - reflexivity.
  - repeat constructor.
  - vm_compute. discriminate.
Defined.

(** X10: [checkSolution] can be repeated: a second call on the same Task
    returns a Submission equal to the first, leaves objects and suites
    untouched, and writes the same lines once more. *)
Theorem checkSolution_repeatable (s : UserSolution) (task : Task) (σ : state)
    (ts : list addr) (os : list TestCaseBase) :
  suites σ !! testSuite task = Some ts →
  contents σ ts os →
  Z.of_nat (length ts) ≤ Int.INT_MAX →
  ∃ sub σ',
    checkSolution_twice s task σ = Some ((sub, sub), σ')
    ∧ heap σ' = heap σ
    ∧ suites σ' = suites σ
    ∧ totalTestSuitesCreated σ' = totalTestSuitesCreated σ
    ∧ cout σ' = cout σ ++ (os ≫= runTestCase_trace) ++ (os ≫= runTestCase_trace).
Proof.
  intros Hs Hc Hmax. eexists _, _. split.
  - unfold checkSolution_twice.
    run_with (checkSolution_run s task σ ts os Hs Hc Hmax).
    erewrite bind_run; [reflexivity|].
    by apply (checkSolution_run s task _ ts os).
  - simpl. split_and!; try done. by rewrite app_assoc.
Qed.

Lemma checkSolution_repeatable_witness :
  ∃ sub σ',
    checkSolution_twice advanced_scenario_solution two_tests_task two_tests_state
    = Some ((sub, sub), σ')
    ∧ heap σ' = heap two_tests_state
    ∧ suites σ' = suites two_tests_state
    ∧ totalTestSuitesCreated σ' = totalTestSuitesCreated two_tests_state
    ∧ cout σ' = cout two_tests_state
                ++ ([TestCase "input1" "input1"; AdvancedTestCase "x" "x" 1]
                      ≫= runTestCase_trace)
                ++ ([TestCase "input1" "input1"; AdvancedTestCase "x" "x" 1]
                      ≫= runTestCase_trace).
Proof.
  apply (checkSolution_repeatable _ _ _ [1%positive; 2%positive]).
  - reflexivity.
  - repeat constructor.
  - vm_compute. discriminate.
Defined.

Lemma passes_fields o : passes o = true ↔ fields_pass o.
Proof.
  destruct o as [i e|i e l]; simpl.
  - apply String.eqb_eq.
  - rewrite andb_true_iff, String.eqb_eq, Z.gtb_lt.
    split; intros [? ?]; (split; [done | lia]).
Qed.

Lemma count_passed_all os :
  count_passed (result_of <$> os) = Z.of_nat (length os)
  ↔ Forall (λ o, passes o = true) os.
Proof.
  induction os as [|o os IH]; [by split; [constructor|]|].
  change (result_of <$> o :: os) with ([result_of o] ++ (result_of <$> os)).
  rewrite count_passed_app, Forall_cons, <- IH.
  pose proof (count_passed_bound (result_of <$> os)) as Hb.
  rewrite length_fmap in Hb.
  unfold count_passed at 1. simpl.
  destruct (passes o); simpl; split; lia.
Qed.

(** X11: [totalPassed] lies between 0 and the number of tests, and it
    reaches the number of tests exactly when every test passes on its own
    fields: [input == expected], and [complexityLevel > 2] for an advanced
    test. *)
Theorem totalPassed_bounds (s : UserSolution) (task : Task) (σ : state)
    (ts : list addr) (os : list TestCaseBase) :
  suites σ !! testSuite task = Some ts →
  contents σ ts os →
  Z.of_nat (length ts) ≤ Int.INT_MAX →
  ∃ sub σ',
    checkSolution s task σ = Some (sub, σ')
    ∧ 0 ≤ getTotalPassed sub ≤ Z.of_nat (length ts)
    ∧ (getTotalPassed sub = Z.of_nat (length ts) ↔ Forall fields_pass os).
Proof.
  intros Hs Hc Hmax. eexists _, _.
  split; [by apply (checkSolution_run s task σ ts os)|].
  unfold getTotalPassed. simpl.
  rewrite (contents_length _ _ _ Hc). split.
  - pose proof (count_passed_bound (result_of <$> os)) as Hb.
    by rewrite length_fmap in Hb.
  - rewrite count_passed_all. apply Forall_proper; [|done].
    intros o. apply passes_fields.
Qed.

Lemma totalPassed_bounds_witness :
  ∃ sub σ',
    checkSolution advanced_scenario_solution two_tests_task two_tests_state
    = Some (sub, σ')
    ∧ 0 ≤ getTotalPassed sub ≤ Z.of_nat (length [1%positive; 2%positive])
    ∧ (getTotalPassed sub = Z.of_nat (length [1%positive; 2%positive])
       ↔ Forall fields_pass
           [TestCase "input1" "input1"; AdvancedTestCase "x" "x" 1]).
Proof.
  apply totalPassed_bounds.
  - reflexivity.
  - repeat constructor.
  - vm_compute. discriminate.
Defined.

(** X12: checking a suite through a Task built from it gives the same
    Submission and writes the same lines as checking the suite's own
    elements would: the Task's copy stands for the original.  The original
    suite and its elements are as before, and the counter has not moved. *)
Theorem Task_then_checkSolution (s : UserSolution) (desc : string)
    (suite : addr) (σ : state) (ts : list addr) (os : list TestCaseBase) :
  suites σ !! suite = Some ts →
  contents σ ts os →
  Z.of_nat (length ts) ≤ Int.INT_MAX →
  ∃ sub σ' σ0,
    (task <- Task_ctor desc suite ;; checkSolution s task) σ = Some (sub, σ')
    ∧ checkSolution s {| description := desc; testSuite := suite |} σ
      = Some (sub, σ0)
    ∧ cout σ' = cout σ0
    ∧ suites σ' !! suite = Some ts
    ∧ contents σ' ts os
    ∧ totalTestSuitesCreated σ' = totalTestSuitesCreated σ.
Proof.
  intros Hs Hc Hmax.
  destruct (TestSuite_copy_ctor_run σ suite ts os Hs Hc)
    as (c & mine & σ1 & Hrun & Hfresh & Hsu & Hcm & Hfr & Hndm & Hfrm & Hcnt & Hout).
  assert (c ≠ suite) as Hne by congruence.
  assert (suites σ1 !! c = Some mine) as Hmine.
  { rewrite Hsu. apply lookup_insert_eq. }
  assert (length mine = length ts) as Hlen.
  { by rewrite (contents_length _ _ _ Hcm), (contents_length _ _ _ Hc). }
  eexists _, _, _. split_and!.
  - unfold Task_ctor.
    erewrite (bind_run (bind _ _)); [|by run_with Hrun].
    apply (checkSolution_run s _ σ1 mine os); simpl; try done. by rewrite Hlen.
  - by apply (checkSolution_run s _ σ ts os).
  - simpl. by rewrite Hout.
  - simpl. by rewrite Hsu, lookup_insert_ne.
  - apply contents_emit. eapply contents_weaken; [|exact Hc].
    intros p Hp. apply Hfrm. intros Hp'.
    by apply (fresh_disjoint σ mine ts os Hfr Hc p).
  - done.
Qed.

Lemma Task_then_checkSolution_witness :
  ∃ sub σ' σ0,
    (task <- Task_ctor "Example Task" 2%positive ;;
     checkSolution advanced_scenario_solution task) two_suites_state
    = Some (sub, σ')
    ∧ checkSolution advanced_scenario_solution
        {| description := "Example Task"; testSuite := 2%positive |}
        two_suites_state
      = Some (sub, σ0)
    ∧ cout σ' = cout σ0
    ∧ suites σ' !! 2%positive = Some [2%positive; 3%positive]
    ∧ contents σ' [2%positive; 3%positive] two_suites_objects
    ∧ totalTestSuitesCreated σ' = totalTestSuitesCreated two_suites_state.
Proof.
  apply Task_then_checkSolution.
  - reflexivity.
  - repeat constructor.
  - vm_compute. discriminate.
Defined.

(** ** What the operations leave alone *)

#[local] Instance quiet_preorder : PreOrder quiet.
Proof.
  split.
  - by intros σ.
  - intros σ1 σ2 σ3 [H1 H2] [H3 H4]. split; congruence.
Qed.

#[local] Instance only_writes_preorder : PreOrder only_writes.
Proof.
  split.
  - intros σ. split_and!; try done. exists []. by rewrite app_nil_r.
  - intros σ1 σ2 σ3 (H1 & H2 & H3 & l1 & H4) (H5 & H6 & H7 & l2 & H8).
    split_and!; try congruence. exists (l1 ++ l2). rewrite H8, H4. by rewrite app_assoc.
Qed.

Lemma preserves_ret {A} (R : relation state) `{!Reflexive R} (a : A) :
  preserves R (ret a).
Proof. intros σ a' σ' [= <- <-]. reflexivity. Qed.

Lemma preserves_fail {A} (R : relation state) : preserves R (@fail A).
Proof. by intros σ a σ' H. Qed.

Lemma preserves_bind {A B} (R : relation state) `{!Transitive R}
    (m : M A) (k : A → M B) :
  preserves R m → (∀ a, preserves R (k a)) → preserves R (bind m k).
Proof.
  intros Hm Hk σ b σ' (a & σ1 & H1 & H2)%bind_Some.
  transitivity σ1; [by eapply Hm | by eapply Hk].
Qed.

Lemma preserves_for_each {A} (R : relation state) `{!PreOrder R}
    (l : list A) (body : A → M unit) :
  (∀ x, preserves R (body x)) → preserves R (for_each l body).
Proof.
  intros Hbody. induction l as [|x l IH]; simpl.
  - apply preserves_ret; apply _.
  - apply preserves_bind; [apply _ | apply Hbody | by intros _].
Qed.

Ltac frame_primitive :=
  intros ? ? ? H;
  cbv [new delete_object deref alloc_suite get_tests set_tests put_line modify
       getTotalTestSuitesCreated] in H;
  repeat case_match; simplify_eq; try done.

Ltac frame_step :=
  lazymatch goal with
  | |- preserves _ (bind _ _) => apply preserves_bind; [apply _ | | intros ?]
  | |- preserves _ (ret _) => apply preserves_ret; apply _
  | |- preserves _ fail => apply preserves_fail
  | |- preserves _ (for_each _ _) => apply preserves_for_each; [apply _ | intros ?]
  | |- preserves _ (if ?c then _ else _) => destruct c
  | |- preserves _ (match ?x with _ => _ end) => destruct x
  | |- preserves _ _ => by frame_primitive
  end.

Ltac frame := repeat frame_step.

Lemma only_writes_put_line s : preserves only_writes (put_line s).
Proof.
  intros σ a σ' [= <- <-]. split_and!; try done. eexists. reflexivity.
Qed.

Lemma only_writes_runTest t : preserves only_writes (runTest t).
Proof.
  unfold runTest, TestCase_runTest, AdvancedTestCase_runTest, TestCase_runTest.
  apply preserves_bind; [apply _ | by frame_primitive |].
  intros [i e|i e l]; [frame|].
  apply preserves_bind; [apply _ | apply only_writes_put_line | intros _; frame].
Qed.

Lemma only_writes_runTestCase s t : preserves only_writes (runTestCase s t).
Proof.
  unfold runTestCase.
  apply preserves_bind; [apply _ | apply only_writes_runTest | intros b1].
  apply preserves_bind; [apply _ | apply only_writes_runTest | intros b2].
  frame.
Qed.

Lemma only_writes_checkSolution_loop fuel s task :
  ∀ i sub tp, preserves only_writes (checkSolution_loop fuel s task i sub tp).
Proof.
  induction fuel as [|fuel IH]; intros i sub tp; simpl; [apply preserves_fail|].
  unfold getTestCount, getTests, vector_at, set_result.
  apply preserves_bind; [apply _ | frame | intros n].
  destruct (i <? Int.to_size_t n); [|frame].
  apply preserves_bind; [apply _ | frame | intros tests].
  apply preserves_bind; [apply _ | frame | intros test].
  apply preserves_bind; [apply _ | apply only_writes_runTestCase | intros result].
  apply preserves_bind; [apply _ | frame | intros sub']. apply IH.
Qed.

(** X13: the runner only reads: whenever [runTest], [runTestCase] or
    [checkSolution] returns, in any state, no test-case object and no suite
    has been created, changed or released and the counter is as before; the
    only effect is that lines were appended to [cout]. *)
Theorem runner_only_writes_output :
  (∀ t, preserves only_writes (runTest t))
  ∧ (∀ s t, preserves only_writes (runTestCase s t))
  ∧ (∀ s task, preserves only_writes (checkSolution s task)).
Proof.
  split_and!.
  - apply only_writes_runTest.
  - apply only_writes_runTestCase.
  - intros s task. unfold checkSolution, getTestCount, Submission_ctor.
    apply preserves_bind; [apply _ | frame | intros n].
    apply preserves_bind; [apply _ | frame | intros sub].
    apply preserves_bind;
      [apply _ | apply only_writes_checkSolution_loop | intros r; frame].
Qed.

Lemma quiet_clone_into a ts : preserves quiet (clone_into a ts).
Proof. unfold clone_into, clone, push_back. frame. Qed.

Lemma quiet_delete_all ts : preserves quiet (delete_all ts).
Proof. unfold delete_all. frame. Qed.

Lemma quiet_TestSuite_copy_ctor b : preserves quiet (TestSuite_copy_ctor b).
Proof.
  unfold TestSuite_copy_ctor.
  apply preserves_bind; [apply _ | frame | intros this].
  apply preserves_bind; [apply _ | frame | intros others].
  apply preserves_bind; [apply _ | apply quiet_clone_into | intros _; frame].
Qed.

(** X14: only the default constructor moves the counter, and no suite
    operation writes to [cout]: whenever [clone], [addTest], the copy
    constructor, copy assignment, [shallowCopy], the destructor or the
    construction of a Task returns, in any state, the counter and [cout] are
    what they were.  In particular the destructor never decrements the
    counter, which therefore counts default constructions, not live
    suites. *)
Theorem suite_operations_are_quiet :
  (∀ t, preserves quiet (clone t))
  ∧ (∀ a p, preserves quiet (addTest a p))
  ∧ (∀ b, preserves quiet (TestSuite_copy_ctor b))
  ∧ (∀ a b, preserves quiet (operator_assign a b))
  ∧ (∀ a b, preserves quiet (shallowCopy a b))
  ∧ (∀ a, preserves quiet (TestSuite_dtor a))
  ∧ (∀ desc suite, preserves quiet (Task_ctor desc suite)).
Proof.
  split_and!.
  - intros t. unfold clone. frame.
  - intros a p. unfold addTest, push_back. frame.
  - apply quiet_TestSuite_copy_ctor.
  - intros a b. unfold operator_assign. destruct (decide (a ≠ b)); [|frame].
    apply preserves_bind; [apply _ | frame | intros ts].
    apply preserves_bind; [apply _ | apply quiet_delete_all | intros _].
    apply preserves_bind; [apply _ | frame | intros _].
    apply preserves_bind; [apply _ | frame | intros others].
    apply quiet_clone_into.
  - intros a b. unfold shallowCopy. frame.
  - intros a. unfold TestSuite_dtor.
    apply preserves_bind; [apply _ | frame | intros ts].
    apply preserves_bind; [apply _ | apply quiet_delete_all | intros _; frame].
  - intros desc suite. unfold Task_ctor.
    apply preserves_bind; [apply _ | apply quiet_TestSuite_copy_ctor | intros c; frame].
Qed.

(** ** Task *)

Lemma only_writes_checkSolution s task :
  preserves only_writes (checkSolution s task).
Proof.
  unfold checkSolution, getTestCount, Submission_ctor.
  apply preserves_bind; [apply _ | frame | intros n].
  apply preserves_bind; [apply _ | frame | intros sub].
  apply preserves_bind;
    [apply _ | apply only_writes_checkSolution_loop | intros r; frame].
Qed.

(** Whenever the cloning loop returns, it has appended to [this] pointers
    that were free before, and every object that was live is as it was. *)
Lemma clone_into_inv this others :
  ∀ σ cur σ',
    suites σ !! this = Some cur →
    clone_into this others σ = Some ((), σ') →
    ∃ news,
      suites σ' = <[this:=cur ++ news]> (suites σ)
      ∧ Forall (λ p, heap σ !! p = None) news
      ∧ (∀ q, is_Some (heap σ !! q) → heap σ' !! q = heap σ !! q).
Proof.
  induction others as [|t others IH]; intros σ cur σ' Hthis Hrun.
  - injection Hrun as <-. exists []. split_and!; [|constructor|done].
    rewrite app_nil_r. by rewrite insert_id.
  - unfold clone_into in Hrun. simpl in Hrun.
    apply bind_Some in Hrun as ([] & σ2 & Hbody & Hrest).
    apply bind_Some in Hbody as (p & σ1 & Hclone & Hpush).
    destruct (heap σ !! t) as [o|] eqn:Hto.
    2:{ unfold clone, bind, deref in Hclone. by rewrite Hto in Hclone. }
    rewrite (clone_run σ t o Hto) in Hclone. injection Hclone as <- <-.
    set (p := fresh (dom (heap σ))) in *.
    assert (heap σ !! p = None) as Hp by apply fresh_not_live.
    rewrite (push_back_run (set_heap <[p:=o]> σ) this cur p Hthis) in Hpush.
    injection Hpush as <-.
    destruct (IH _ (cur ++ [p]) σ' (lookup_insert_eq _ _ _) Hrest)
      as (news & Hsu & Hfr & Hfrm).
    exists (p :: news). split_and!.
    + rewrite Hsu. simpl. rewrite insert_insert_eq. by rewrite <- app_assoc.
    + constructor; [done|]. eapply Forall_impl; [exact Hfr|].
      intros q Hq. simpl in Hq.
      destruct (decide (p = q)) as [<-|Hne]; [done|].
      by rewrite lookup_insert_ne in Hq.
    + intros q [x Hq].
      assert (p ≠ q) as Hne by congruence.
      rewrite Hfrm; simpl; rewrite lookup_insert_ne by done; [done | by eexists].
Qed.

Lemma task_suite_kept_step c mine os σ σ' :
  task_suite_kept c mine os σ →
  (∀ q, q ∈ mine → heap σ' !! q = heap σ !! q) →
  suites σ' !! c = suites σ !! c →
  (∀ a l, a ≠ c → suites σ' !! a = Some l → ∀ p, p ∈ l → p ∉ mine) →
  task_suite_kept c mine os σ'.
Proof.
  intros (Hc & Hcont & _) Hheap Hsu Hsep. split_and!; [by rewrite Hsu| |done].
  by eapply contents_weaken.
Qed.

Lemma task_suite_kept_live c mine os σ q :
  task_suite_kept c mine os σ → q ∈ mine → is_Some (heap σ !! q).
Proof. intros (_ & Hcont & _) Hq. by eapply contents_live. Qed.

Lemma task_suite_kept_not_free c mine os σ p :
  task_suite_kept c mine os σ → heap σ !! p = None → p ∉ mine.
Proof.
  intros Hk Hp Hin. destruct (task_suite_kept_live _ _ _ _ _ Hk Hin). congruence.
Qed.

(** One permitted step keeps the Task's suite and its separation from the
    other suites. *)
Lemma run_op_keeps c mine os op σ σ' :
  task_suite_kept c mine os σ →
  keeps_away c mine op →
  run_op op σ = Some ((), σ') →
  task_suite_kept c mine os σ'.
Proof.
  intros Hk Haway Hrun.
  pose proof Hk as (Hc & Hcont & Hsep).
  destruct op as [o| |a p|b|a b|a b|a|s task]; simpl in Hrun, Haway.
  - (* new *)
    injection Hrun as <-.
    apply (task_suite_kept_step c mine os σ); try done.
    intros q Hq. simpl. rewrite lookup_insert_ne; [done|]. intros <-.
    by apply (task_suite_kept_not_free _ _ _ _ _ Hk (fresh_not_live σ)).
  - (* TestSuite() *)
    injection Hrun as <-.
    assert (fresh (dom (suites σ)) ≠ c) as Hne.
    { intros Heq. pose proof (fresh_suite_not_live σ) as Hf. congruence. }
    apply (task_suite_kept_step c mine os σ); try done.
    + simpl. by rewrite lookup_insert_ne.
    + intros a l Ha Hl. simpl in Hl.
      destruct (decide (fresh (dom (suites σ)) = a)) as [<-|Hn].
      * rewrite lookup_insert_eq in Hl. injection Hl as <-.
        intros p Hp. by apply not_elem_of_nil in Hp.
      * rewrite lookup_insert_ne in Hl by done. by apply (Hsep a).
  - (* addTest *)
    destruct Haway as [Hac Hp].
    unfold addTest in Hrun.
    destruct (suites σ !! a) as [ts|] eqn:Ha.
    2:{ unfold push_back, bind, get_tests in Hrun. by rewrite Ha in Hrun. }
    rewrite (push_back_run σ a ts p Ha) in Hrun. injection Hrun as <-.
    apply (task_suite_kept_step c mine os σ); try done.
    + simpl. by rewrite lookup_insert_ne.
    + intros a' l Ha' Hl. simpl in Hl.
      destruct (decide (a = a')) as [<-|Hn].
      * rewrite lookup_insert_eq in Hl. injection Hl as <-.
        intros q [Hq|Hq%list_elem_of_singleton]%elem_of_app; [|by subst].
        by apply (Hsep a ts).
      * rewrite lookup_insert_ne in Hl by done. by apply (Hsep a').
  - (* copy construction *)
    apply bind_Some in Hrun as (c' & σ1 & Hcopy & [= <-]).
    unfold TestSuite_copy_ctor in Hcopy.
    apply bind_Some in Hcopy as (this & σ0 & [= <- <-] & Hcopy).
    set (this := fresh (dom (suites σ))) in *.
    apply bind_Some in Hcopy as (others & σ0' & Hget & Hcopy).
    unfold get_tests in Hget.
    destruct (suites _ !! b) as [ts|] in Hget; [|done]. injection Hget as <- <-.
    apply bind_Some in Hcopy as ([] & σ2 & Hclone & [= _ <-]).
    apply (clone_into_inv this _ _ []) in Hclone as (news & Hsu & Hfr & Hfrm);
      [|simpl; apply lookup_insert_eq].
    simpl in Hsu, Hfr, Hfrm. rewrite insert_insert_eq in Hsu.
    assert (this ≠ c) as Hne.
    { intros Heq. pose proof (fresh_suite_not_live σ) as Hf.
      fold this in Hf. congruence. }
    apply (task_suite_kept_step c mine os σ); try done.
    + intros q Hq. apply Hfrm. by eapply task_suite_kept_live.
    + rewrite Hsu. by rewrite lookup_insert_ne.
    + intros a l Ha Hl. rewrite Hsu in Hl.
      destruct (decide (this = a)) as [<-|Hn].
      * rewrite lookup_insert_eq in Hl. injection Hl as <-.
        intros q Hq. rewrite Forall_forall in Hfr.
        by apply (task_suite_kept_not_free _ _ _ _ _ Hk (Hfr q Hq)).
      * rewrite lookup_insert_ne in Hl by done. by apply (Hsep a).
  - (* copy assignment *)
    unfold operator_assign in Hrun.
    destruct (decide (a ≠ b)) as [Hab|_]; [|by injection Hrun as <-].
    apply bind_Some in Hrun as (tsa0 & σ0 & Hget & Hrun).
    unfold get_tests in Hget.
    destruct (suites σ !! a) as [tsa|] eqn:Ha; [|done]. injection Hget as <- <-.
    apply bind_Some in Hrun as ([] & σ1 & Hdel & Hrun).
    destruct (delete_all_inv _ _ _ Hdel) as (_ & _ & _ & Hkept & Hsu1 & _).
    apply bind_Some in Hrun as ([] & σ2 & Hset & Hrun).
    unfold set_tests in Hset. rewrite Hsu1, Ha in Hset. injection Hset as <-.
    apply bind_Some in Hrun as (others & σ2' & Hget & Hclone).
    unfold get_tests in Hget.
    destruct (suites _ !! b) as [tsb|] in Hget; [|done]. injection Hget as <- <-.
    apply (clone_into_inv a _ _ []) in Hclone as (news & Hsu & Hfr & Hfrm);
      [|simpl; apply lookup_insert_eq].
    simpl in Hsu, Hfr, Hfrm. rewrite insert_insert_eq, Hsu1 in Hsu.
    assert (∀ q, q ∈ mine → heap σ1 !! q = heap σ !! q) as Hmine1.
    { intros q Hq. apply Hkept. intros Hin. by apply (Hsep a tsa Haway Ha q). }
    apply (task_suite_kept_step c mine os σ); try done.
    + intros q Hq. rewrite <- (Hmine1 q Hq). apply Hfrm.
      rewrite (Hmine1 q Hq). by eapply task_suite_kept_live.
    + rewrite Hsu. by rewrite lookup_insert_ne.
    + intros a' l Ha' Hl. rewrite Hsu in Hl.
      destruct (decide (a = a')) as [<-|Hn].
      * rewrite lookup_insert_eq in Hl. injection Hl as <-.
        intros q Hq Hin. rewrite Forall_forall in Hfr. specialize (Hfr q Hq).
        rewrite (Hmine1 q Hin) in Hfr.
        by apply (task_suite_kept_not_free _ _ _ _ _ Hk Hfr).
      * rewrite lookup_insert_ne in Hl by done. by apply (Hsep a').
  - (* shallowCopy *)
    destruct Haway as [Hac Hbc].
    unfold shallowCopy in Hrun.
    apply bind_Some in Hrun as (others & σ0 & Hget & Hset).
    unfold get_tests in Hget.
    destruct (suites σ !! b) as [tsb|] eqn:Hb; [|done]. injection Hget as <- <-.
    unfold set_tests in Hset.
    destruct (suites σ !! a) as [tsa|] eqn:Ha; [|done]. injection Hset as <-.
    apply (task_suite_kept_step c mine os σ); try done.
    + simpl. by rewrite lookup_insert_ne.
    + intros a' l Ha' Hl. simpl in Hl.
      destruct (decide (a = a')) as [<-|Hn].
      * rewrite lookup_insert_eq in Hl. injection Hl as <-. by apply (Hsep b).
      * rewrite lookup_insert_ne in Hl by done. by apply (Hsep a').
  - (* destruction *)
    destruct (suites σ !! a) as [ts|] eqn:Ha.
    2:{ unfold TestSuite_dtor, bind, get_tests in Hrun. by rewrite Ha in Hrun. }
    destruct (TestSuite_dtor_inv _ _ _ _ Ha Hrun) as (_ & _ & Hsu & _ & Hkept & _).
    apply (task_suite_kept_step c mine os σ); try done.
    + intros q Hq. apply Hkept. intros Hin. by apply (Hsep a ts Haway Ha q).
    + rewrite Hsu. by rewrite lookup_delete_ne.
    + intros a' l Ha' Hl. rewrite Hsu in Hl.
      destruct (decide (a = a')) as [<-|Hn].
      * by rewrite lookup_delete_eq in Hl.
      * rewrite lookup_delete_ne in Hl by done. by apply (Hsep a').
  - (* checkSolution *)
    apply bind_Some in Hrun as (sub & σ1 & Hcheck & [= <-]).
    destruct (only_writes_checkSolution s task _ _ _ Hcheck) as (Hh & Hs & _).
    apply (task_suite_kept_step c mine os σ); try done.
    + intros q _. by rewrite Hh.
    + by rewrite Hs.
    + intros a l Ha Hl. rewrite Hs in Hl. by apply (Hsep a).
Qed.

Lemma run_ops_keeps c mine os ops :
  ∀ σ σ',
    task_suite_kept c mine os σ →
    Forall (keeps_away c mine) ops →
    run_ops ops σ = Some ((), σ') →
    task_suite_kept c mine os σ'.
Proof.
  induction ops as [|op ops IH]; intros σ σ' Hk Haway Hrun.
  - by injection Hrun as <-.
  - apply Forall_cons in Haway as [Hop Haway].
    unfold run_ops in Hrun. simpl in Hrun.
    apply bind_Some in Hrun as ([] & σ1 & Hstep & Hrest).
    apply (IH σ1 σ'); [|done|done].
    by apply (run_op_keeps c mine os op σ).
Qed.

(** C8 (the claim as stated fails): mutating the original suite after the
    Task is built can change the Task's suite.  Over [two_suites_state], a
    Task is built from the suite at address 2; that suite then takes a
    shallow copy of the Task's suite and is destroyed.  Both steps have the
    original as receiver, and the Task's two elements, live before, are
    released. *)
Lemma Task_suite_not_immune_to_aliasing :
  ¬ (∀ (σ : state) (desc : string) (suite : addr) (task : Task) (σ1 : state)
       (ops : list client_op) (σ2 : state),
       Task_ctor desc suite σ = Some (task, σ1) →
       Forall (mutates suite) ops →
       run_ops ops σ1 = Some ((), σ2) →
       suite_objects σ2 (getTestSuite task) = suite_objects σ1 (getTestSuite task)).
Proof.
  intros H.
  specialize (H two_suites_state "Example Task"%string 2%positive).
  destruct (Task_ctor "Example Task" 2%positive two_suites_state)
    as [[task σ1]|] eqn:Hctor; [|by vm_compute in Hctor].
  specialize (H task σ1
    [op_shallowCopy 2%positive (getTestSuite task); op_destroy 2%positive]).
  destruct (run_ops
    [op_shallowCopy 2%positive (getTestSuite task); op_destroy 2%positive] σ1)
    as [[[] σ2]|] eqn:Hrun.
  - specialize (H σ2 eq_refl).
    assert (suite_objects σ2 (getTestSuite task)
            = suite_objects σ1 (getTestSuite task)) as Heq.
    { apply H; [|done]. repeat constructor. }
    vm_compute in Hctor. injection Hctor as <- <-.
    vm_compute in Hrun. injection Hrun as <-.
    vm_compute in Heq. discriminate.
  - vm_compute in Hctor. injection Hctor as <- <-.
    vm_compute in Hrun. discriminate.
Qed.

(** C8 as amended: a Task holds a suite object of its own, built as a deep
    copy of the suite it is given.  From then on the Task's suite keeps its
    pointers, and they keep pointing to the same objects, through any run of
    client steps (allocation, construction, [addTest], copy construction,
    copy assignment, [shallowCopy], destruction, [checkSolution]) that
    returns, provided no other suite is handed the Task's elements: no
    [addTest] of one of them and no [shallowCopy] from the Task's suite.
    The accessors are functions of the Task alone, and after such a run
    [checkSolution] on the Task returns and leaves every object and every
    suite as it found them. *)
Theorem Task_suite_is_kept (σ : state) (desc : string) (suite : addr)
    (ts : list addr) (os : list TestCaseBase) :
  suites σ !! suite = Some ts →
  contents σ ts os →
  suites_live σ →
  Z.of_nat (length ts) ≤ Int.INT_MAX →
  ∃ task σ1 mine,
    Task_ctor desc suite σ = Some (task, σ1)
    ∧ getDescription task = desc
    ∧ getTestSuite task ≠ suite
    ∧ suites σ !! getTestSuite task = None
    ∧ suites σ1 !! getTestSuite task = Some mine
    ∧ deep_copy σ1 (getTestSuite task) suite ts os
    ∧ ∀ (ops : list client_op) (σ2 : state),
        Forall (keeps_away (getTestSuite task) mine) ops →
        run_ops ops σ1 = Some ((), σ2) →
        suites σ2 !! getTestSuite task = Some mine
        ∧ contents σ2 mine os
        ∧ ∀ s, ∃ sub σ3,
            checkSolution s task σ2 = Some (sub, σ3)
            ∧ heap σ3 = heap σ2 ∧ suites σ3 = suites σ2.
Proof.
  intros Hs Hc Hlive Hmax.
  destruct (TestSuite_copy_ctor_run σ suite ts os Hs Hc)
    as (c & mine & σ1 & Hrun & Hfresh & Hsu & Hcm & Hfr & Hndm & Hfrm & _).
  assert (c ≠ suite) as Hne by congruence.
  pose proof (fresh_disjoint _ _ _ _ Hfr Hc) as Hdisj.
  assert (suites σ1 !! c = Some mine) as Hmine.
  { rewrite Hsu. apply lookup_insert_eq. }
  assert (task_suite_kept c mine os σ1) as Hkept.
  { split_and!; [done..|].
    intros a l Ha Hl p Hp Hin. rewrite Hsu, lookup_insert_ne in Hl by done.
    pose proof (Hlive a l Hl) as Hl'. simpl in Hl'.
    rewrite Forall_forall in Hl', Hfr.
    destruct (Hl' p Hp) as [x Hx]. specialize (Hfr p Hin). congruence. }
  exists {| description := desc; testSuite := c |}, σ1, mine.
  unfold getDescription, getTestSuite. simpl.
  split_and!; try done.
  - unfold Task_ctor. by run_with Hrun.
  - apply (deep_copy_intro σ1 c suite mine ts os); try done.
    + by rewrite Hsu, lookup_insert_ne.
    + eapply contents_weaken; [|exact Hc]. intros p Hp. apply Hfrm.
      intros Hp'. by apply (Hdisj p).
  - intros ops σ2 Haway Hops.
    destruct (run_ops_keeps c mine os ops σ1 σ2 Hkept Haway Hops)
      as (Hc2 & Hcm2 & _).
    split_and!; try done.
    intros s. eexists _, _. split.
    + apply (checkSolution_run s _ σ2 mine os); simpl; try done.
      by rewrite (contents_length _ _ _ Hcm), <- (contents_length _ _ _ Hc).
    + done.
Qed.

Lemma Task_suite_is_kept_witness :
  ∃ task σ1 mine,
    Task_ctor "Example Task" 2%positive two_suites_state = Some (task, σ1)
    ∧ getDescription task = "Example Task"%string
    ∧ getTestSuite task ≠ 2%positive
    ∧ suites two_suites_state !! getTestSuite task = None
    ∧ suites σ1 !! getTestSuite task = Some mine
    ∧ deep_copy σ1 (getTestSuite task) 2%positive [2%positive; 3%positive]
        two_suites_objects
    ∧ ∀ (ops : list client_op) (σ2 : state),
        Forall (keeps_away (getTestSuite task) mine) ops →
        run_ops ops σ1 = Some ((), σ2) →
        suites σ2 !! getTestSuite task = Some mine
        ∧ contents σ2 mine two_suites_objects
        ∧ ∀ s, ∃ sub σ3,
            checkSolution s task σ2 = Some (sub, σ3)
            ∧ heap σ3 = heap σ2 ∧ suites σ3 = suites σ2.
Proof.
  apply (Task_suite_is_kept two_suites_state "Example Task" 2%positive
           [2%positive; 3%positive]).
  - reflexivity.
  - repeat constructor.
  - intros a l Hl. simpl in Hl.
    apply lookup_insert_Some in Hl as [[<- <-]|[_ Hl]].
    { apply Forall_forall. intros p Hp%list_elem_of_In. simpl in Hp.
      destruct Hp as [<-|[<-|[]]]; by eexists. }
    apply lookup_insert_Some in Hl as [[<- <-]|[_ Hl]].
    { apply Forall_forall. intros p Hp%list_elem_of_In. simpl in Hp.
      destruct Hp as [<-|[]]; by eexists. }
    by rewrite lookup_empty in Hl.
  - vm_compute. discriminate.
Defined.

(** The permitted steps of [harmless_steps], run after the Task of the
    witness is built, do return: the conditions of the theorem are met by a
    run that adds to, copies, re-points and checks the original suite. *)
Example harmless_steps_run :
  ∃ task σ1 mine σ2,
    Task_ctor "Example Task" 2%positive two_suites_state = Some (task, σ1)
    ∧ suites σ1 !! getTestSuite task = Some mine
    ∧ Forall (keeps_away (getTestSuite task) mine) harmless_steps
    ∧ run_ops harmless_steps σ1 = Some ((), σ2).
Proof.
  eexists _, _, _, _. split_and!.
  - vm_compute. reflexivity.
  - vm_compute. reflexivity.
  - repeat constructor; try discriminate.
    intros Hin%list_elem_of_In. simpl in Hin. intuition discriminate.
  - vm_compute. reflexivity.
Qed.
